(** * dART-re: the Myo armband acquisition programs

    A shallow embedding of
      - [src/MyoSensor/MyoLinux/src/main.cpp] (the current program, module
        [MyoLinux]) and
      - [src/MyoSensor/main.cpp] (the earlier program, module [Legacy]),
    together with the properties their specification states about the
    watchdog, the device-address parser, the reconnection routine, the
    supervisor loops and the CSV output.

    The device client ([myo::Client]), the clocks, the file system and the
    interrupt signal are the environment: they are an interface ([Environment])
    whose operations take and return an abstract world, so the theorems stated
    over an arbitrary environment hold for every behaviour of the device and
    every arrival time of the signal.  A scripted environment ([Sim]) runs the
    programs on concrete scenarios. *)

From Stdlib Require Import ZArith Ascii String List Lia Bool.
From Stdlib Require Import DecimalString.
From stdpp Require Import base gmap strings list.

Local Open Scope Z_scope.

(** ** Exceptions

    Every handler of the two programs is [catch (const std::exception& e)] and
    uses only [e.what()]; the three classes below are the ones the programs and
    [std::stoi] throw themselves. *)

Inductive exception : Type :=
  | runtime_error (what_arg : string)
  | invalid_argument (what_arg : string)
  | out_of_range (what_arg : string).

Definition what (e : exception) : string :=
  match e with
  | runtime_error m => m
  | invalid_argument m => m
  | out_of_range m => m
  end.

(** The result of running a piece of code: a value, a thrown exception, or the
    model's iteration budget ran out ([Fuel], which no C++ run produces). *)
Inductive outcome (A : Type) : Type :=
  | Val (a : A)
  | Exc (e : exception)
  | Fuel.
Arguments Val {A} a.
Arguments Exc {A} e.
Arguments Fuel {A}.

(** ** Text helpers *)

(** [std::to_string] and [operator<<] on the integer types. *)
Definition to_string (z : Z) : string := NilZero.string_of_int (Z.to_int z).

Fixpoint count_char (c : ascii) (s : string) : nat :=
  match s with
  | EmptyString => 0%nat
  | String a s' => ((if Ascii.eqb a c then 1 else 0) + count_char c s')%nat
  end.

(** Splitting a line at every comma: the fields of a CSV row. *)
Fixpoint csv_fields (s : string) : list string :=
  match s with
  | EmptyString => [EmptyString]
  | String a s' =>
      if Ascii.eqb a ","%char then EmptyString :: csv_fields s'
      else match csv_fields s' with
           | f :: fs => String a f :: fs
           | [] => [String a EmptyString]
           end
  end.

Definition newline : ascii := "010"%char.
Definition endl : string := String newline EmptyString.

(** ** The liveness watchdog ([ConnectionWatchdog], both programs) *)

Module Watchdog.

(** [std::chrono::steady_clock] counts ticks; libstdc++ ticks are
    nanoseconds.  A time point is the tick count it holds. *)
Definition ticks_per_second : Z := 1000000000.

(** [std::chrono::duration_cast<std::chrono::seconds>]: integer division
    truncating toward zero. *)
Definition duration_cast_seconds (d : Z) : Z := Z.quot d ticks_per_second.

Record ConnectionWatchdog : Type := mk {
  timeout : Z;          (* std::chrono::seconds *)
  last_activity : Z     (* steady_clock::time_point *)
}.

(** The constructor; [now] is what [steady_clock::now()] returns. *)
Definition make (timeout_s : Z) (now : Z) : ConnectionWatchdog :=
  {| timeout := timeout_s; last_activity := now |}.

Definition update (wd : ConnectionWatchdog) (now : Z) : ConnectionWatchdog :=
  {| timeout := timeout wd; last_activity := now |}.

Definition is_timeout (wd : ConnectionWatchdog) (now : Z) : bool :=
  duration_cast_seconds (now - last_activity wd) >? timeout wd.

End Watchdog.

(** ** The device-address parser ([parse_mac_address], MyoLinux program) *)

Module ParseMac.

(** [std::getline(ss, octet, ':')] on the unread rest of the stream: it
    fails when nothing is left; otherwise it takes the characters up to the
    first delimiter and drops the delimiter. *)
Fixpoint take_field (delim : ascii) (s : string) : string * string :=
  match s with
  | EmptyString => (EmptyString, EmptyString)
  | String c s' =>
      if Ascii.eqb c delim then (EmptyString, s')
      else let '(f, r) := take_field delim s' in (String c f, r)
  end.

Definition getline (ss : string) (delim : ascii) : option (string * string) :=
  match ss with
  | EmptyString => None
  | _ => Some (take_field delim ss)
  end.

(** [isspace] in the C locale. *)
Definition isspace (c : ascii) : bool :=
  let n := Z.of_N (N_of_ascii c) in
  (n =? 32) || ((9 <=? n) && (n <=? 13)).

Definition hex_digit (c : ascii) : option Z :=
  let n := Z.of_N (N_of_ascii c) in
  if (48 <=? n) && (n <=? 57) then Some (n - 48)
  else if (65 <=? n) && (n <=? 70) then Some (n - 55)
  else if (97 <=? n) && (n <=? 102) then Some (n - 87)
  else None.

Definition is_hex (c : ascii) : bool :=
  match hex_digit c with Some _ => true | None => false end.

Fixpoint skip_space (s : string) : string :=
  match s with
  | String c s' => if isspace c then skip_space s' else s
  | EmptyString => s
  end.

(** The longest run of hexadecimal digits at the front of [s], accumulated
    in [acc]; [any] records whether a digit was consumed. *)
Fixpoint hex_run (s : string) (acc : Z) (any : bool) : Z * bool :=
  match s with
  | String c s' =>
      match hex_digit c with
      | Some d => hex_run s' (acc * 16 + d) true
      | None => (acc, any)
      end
  | EmptyString => (acc, any)
  end.

(** [strtol(s, &end, 16)] before range clamping: leading white space, an
    optional sign, an optional [0x]/[0X] prefix (taken only when a digit
    follows it), then digits.  [None] when no digit was converted. *)
Definition strtol16 (s : string) : option Z :=
  let s1 := skip_space s in
  let '(neg, s2) :=
    match s1 with
    | String "-"%char r => (true, r)
    | String "+"%char r => (false, r)
    | _ => (false, s1)
    end in
  let s3 :=
    match s2 with
    | String "0"%char (String x (String h r)) =>
        if (Ascii.eqb x "x"%char || Ascii.eqb x "X"%char)
           && is_hex h
        then String h r else s2
    | _ => s2
    end in
  let '(v, any) := hex_run s3 0 false in
  if any then Some (if neg : bool then - v else v) else None.

Definition INT_MIN : Z := - 2147483648.
Definition INT_MAX : Z := 2147483647.

(** [std::stoi(octet, nullptr, 16)]. *)
Definition stoi16 (s : string) : outcome Z :=
  match strtol16 s with
  | None => Exc (invalid_argument "stoi")
  | Some v =>
      if (v <? INT_MIN) || (INT_MAX <? v) then Exc (out_of_range "stoi")
      else Val v
  end.

(** [static_cast<unsigned char>] of an [int]. *)
Definition to_uchar (v : Z) : Z := v mod 256.

(** The [for (int i = 0; i < 6; ++i)] loop, [n] iterations left. *)
Fixpoint parse_from (n : nat) (i : nat) (ss : string) (address : list Z)
  : outcome (list Z) :=
  match n with
  | O => Val address
  | S n' =>
      match getline ss ":"%char with
      | None => Exc (runtime_error "Invalid MAC address format")
      | Some (octet, ss') =>
          match stoi16 octet with
          | Val v => parse_from n' (S i) ss' (<[i := to_uchar v]> address)
          | Exc e => Exc e
          | Fuel => Fuel
          end
      end
  end.

(** The array is declared without initialiser; every slot is assigned
    before the function returns normally. *)
Definition parse_mac_address (mac_str : string) : outcome (list Z) :=
  parse_from 6 0 mac_str (replicate 6 0).

End ParseMac.

(** ** The environment: device client, clocks, file system, signal *)

(** Modelled from the spec: the enumerations of [myoclient.h], which is not
    part of the sources; only the constructors the programs name matter. *)
Inductive SleepMode : Type := Normal | NeverSleep.
Inductive EmgMode : Type := EmgNone | SendEmg | SendEmgRaw.
Inductive ImuMode : Type := ImuNone | SendData | SendEvents | SendAll | SendRaw.
Inductive ClassifierMode : Type := Disabled | Enabled.

(** What an operation of the environment answers: a value or an exception. *)
Inductive reply (A : Type) : Type :=
  | Ok (a : A)
  | Throws (e : exception).
Arguments Ok {A} a.
Arguments Throws {A} e.

(** Modelled from the spec: the sample types of [myoclient.h].  The EMG
    channels are converted to [int] by the callback; the component type
    [Num] of the three IMU samples is left open, with its [operator<<]. *)
Record Vec3 (Num : Type) : Type := mkVec3 { v0 : Num; v1 : Num; v2 : Num }.
Record Vec4 (Num : Type) : Type := mkVec4 { q0 : Num; q1 : Num; q2 : Num; q3 : Num }.
Arguments mkVec3 {Num}. Arguments v0 {Num}. Arguments v1 {Num}. Arguments v2 {Num}.
Arguments mkVec4 {Num}. Arguments q0 {Num}. Arguments q1 {Num}.
Arguments q2 {Num}. Arguments q3 {Num}.

(** One callback invocation made by [client.listen()]. *)
Inductive delivery (Num : Type) : Type :=
  | OnEmg (sample : list Z)
  | OnImu (ori : Vec4 Num) (acc gyr : Vec3 Num).
Arguments OnEmg {Num} sample.
Arguments OnImu {Num} ori acc gyr.

(** The locals [emg_data], [ori_data], [acc_data], [gyr_data] of one episode. *)
Record SampleFrame (Num : Type) : Type := mkFrame {
  emg_data : list Z;
  ori_data : Vec4 Num;
  acc_data : Vec3 Num;
  gyr_data : Vec3 Num
}.
Arguments mkFrame {Num}. Arguments emg_data {Num}. Arguments ori_data {Num}.
Arguments acc_data {Num}. Arguments gyr_data {Num}.

(** The interface the programs consume.  Each operation takes the world and
    returns its answer with the world after it; the interrupt signal is part
    of the world, so it may arrive during any operation. *)
Class Environment (W Num : Type) : Type := {
  (* myo::Client *)
  client_open : W -> reply unit * W;            (* Client(Serial{...}) *)
  client_connected : W -> reply bool * W;
  client_connect : option (list Z * Z) -> W -> reply unit * W;
  client_disconnect : W -> reply unit * W;
  client_setSleepMode : SleepMode -> W -> reply unit * W;
  client_setMode : EmgMode -> ImuMode -> ClassifierMode -> W -> reply unit * W;
  client_onEmg : W -> reply unit * W;
  client_onImu : W -> reply unit * W;
  client_listen : W -> reply (list (delivery Num)) * W;
  (* clocks *)
  steady_now : W -> Z * W;                      (* ticks, see Watchdog *)
  system_now_ms : W -> Z * W;                   (* ms since the epoch *)
  time_now : W -> Z * W;                        (* std::time(nullptr) *)
  put_time : Z -> string;                       (* localtime, %Y%m%d_%H%M%S *)
  sleep_for_ms : Z -> W -> W;
  (* volatile sig_atomic_t stop, set by the SIGINT handler *)
  stop : W -> bool;
  (* file system *)
  fs_exists : string -> W -> reply bool * W;
  fs_create_directories : string -> W -> reply bool * W;
  ofstream_is_open : string -> W -> bool * W;   (* did the open succeed *)
  (* the values of locals read before they are assigned *)
  indeterminate_frame : W -> SampleFrame Num;
  print_num : Num -> string                     (* operator<< on a component *)
}.

(** What a run does, in order. *)
Inductive event : Type :=
  | ELog (message : string)
  | ESleep (ms : Z)
  | EStop (flag : bool)
  | ESetup
  | EConnected (r : reply bool)
  | EConnect (r : reply unit)
  | EDisconnect (r : reply unit)
  | ESetSleepMode (m : SleepMode) (r : reply unit)
  | ESetMode (e : EmgMode) (i : ImuMode) (c : ClassifierMode) (r : reply unit)
  | ERegister (r : reply unit)
  | EListen (ok : bool)
  | EFile (filename : string) (opened : bool)
  | EClose (filename : string).

(** The file system after [text] went to the end of a file opened for
    appending: the file is created when it is absent. *)
Definition append_text (filename text : string) (fs : gmap string string)
  : gmap string string :=
  <[filename := default EmptyString (fs !! filename) +:+ text]> fs.

Section Programs.

Context {W Num : Type} `{Env : Environment W Num}.

(** The state a run threads: the world, the events so far, the contents of
    the files written, and the storage of [main]'s local [watchdog]
    (meaningful from its construction on). *)
Record state : Type := mkState {
  world : W;
  trace : list event;
  files : gmap string string;
  watchdog : Watchdog.ConnectionWatchdog
}.

Definition M (A : Type) : Type := state -> outcome A * state.

Definition ret {A} (a : A) : M A := fun s => (Val a, s).

Definition bind {A B} (m : M A) (k : A -> M B) : M B :=
  fun s =>
    match m s with
    | (Val a, s') => k a s'
    | (Exc e, s') => (Exc e, s')
    | (Fuel, s') => (Fuel, s')
    end.

Definition throw {A} (e : exception) : M A := fun s => (Exc e, s).

Definition out_of_fuel {A} : M A := fun s => (Fuel, s).

(** [try { m } catch (const std::exception& e) { h e }]. *)
Definition try_catch {A} (m : M A) (h : exception -> M A) : M A :=
  fun s =>
    match m s with
    | (Exc e, s') => h e s'
    | r => r
    end.

Definition emit (ev : event) (s : state) : state :=
  mkState (world s) (trace s ++ [ev]) (files s) (watchdog s).

Definition set_world (w : W) (s : state) : state :=
  mkState w (trace s) (files s) (watchdog s).

(** A call of a client operation: the world moves, the call is recorded,
    an exception of the operation is thrown. *)
Definition call {A} (op : W -> reply A * W) (ev : reply A -> event) : M A :=
  fun s =>
    let '(r, w) := op (world s) in
    let s' := emit (ev r) (set_world w s) in
    match r with
    | Ok a => (Val a, s')
    | Throws e => (Exc e, s')
    end.

(** A clock reading. *)
Definition read {A} (op : W -> A * W) : M A :=
  fun s => let '(a, w) := op (world s) in (Val a, set_world w s).

Definition log_message (message : string) : M unit :=
  fun s => (Val tt, emit (ELog message) s).

Definition sleep_for (ms : Z) : M unit :=
  fun s => (Val tt, emit (ESleep ms) (set_world (sleep_for_ms ms (world s)) s)).

Definition read_stop : M bool :=
  fun s => let b := stop (world s) in (Val b, emit (EStop b) s).

Definition connected : M bool := call client_connected EConnected.
Definition connect (target : option (list Z * Z)) : M unit :=
  call (client_connect target) EConnect.
Definition disconnect : M unit := call client_disconnect EDisconnect.
Definition setSleepMode (m : SleepMode) : M unit :=
  call (client_setSleepMode m) (ESetSleepMode m).
Definition setMode (e : EmgMode) (i : ImuMode) (c : ClassifierMode) : M unit :=
  call (client_setMode e i c) (ESetMode e i c).
Definition onEmg : M unit := call client_onEmg ERegister.
Definition onImu : M unit := call client_onImu ERegister.
Definition listen : M (list (delivery Num)) :=
  call client_listen
       (fun r => EListen match r with Ok _ => true | Throws _ => false end).

(** [csv_file << text]: the text goes to the end of the file. *)
Definition write (filename text : string) : M unit :=
  fun s =>
    (Val tt,
     mkState (world s) (trace s) (append_text filename text (files s))
             (watchdog s)).

(** [std::ofstream csv_file(filename, std::ios::app)] and [is_open()]: a
    successful open creates the file when it is absent and keeps what it
    holds otherwise. *)
Definition open_append (filename : string) : M bool :=
  fun s =>
    let '(ok, w) := ofstream_is_open filename (world s) in
    let s' := emit (EFile filename ok) (set_world w s) in
    if ok : bool then (Val true, snd (write filename EmptyString s'))
    else (Val false, s').

Definition close (filename : string) : M unit :=
  fun s => (Val tt, emit (EClose filename) s).

Definition watchdog_construct (timeout_s : Z) : M unit :=
  fun s =>
    let '(now, w) := steady_now (world s) in
    (Val tt, mkState w (trace s) (files s) (Watchdog.make timeout_s now)).

Definition watchdog_update : M unit :=
  fun s =>
    let '(now, w) := steady_now (world s) in
    (Val tt, mkState w (trace s) (files s) (Watchdog.update (watchdog s) now)).

Definition watchdog_is_timeout : M bool :=
  fun s =>
    let '(now, w) := steady_now (world s) in
    (Val (Watchdog.is_timeout (watchdog s) now), set_world w s).

End Programs.

Arguments state W : clear implicits.
Arguments M W A : clear implicits.

Declare Scope prog_scope.
Delimit Scope prog_scope with prog.
Notation "x <- m ;; k" := (bind m (fun x => k))
  (at level 100, m at level 99, k at level 200, right associativity) : prog_scope.
Notation "m ;; k" := (bind m (fun _ => k))
  (at level 100, k at level 200, right associativity) : prog_scope.

Local Open Scope prog_scope.

(** What one pass through a loop body leaves to its loop: go on with the
    next evaluation of the condition, leave the loop ([break]), or leave the
    function ([return code]). *)
Inductive flow : Type :=
  | Next
  | Break
  | Return (code : Z).

(** ** The code the two programs share: the CSV episode and its loop *)

Section Acquisition.

Context {W Num : Type} `{Env : Environment W Num}.

Definition csv_header_line : string :=
  "Timestamp,EMG1,EMG2,EMG3,EMG4,EMG5,EMG6,EMG7,EMG8," +:+
  "OrientationW,OrientationX,OrientationY,OrientationZ," +:+
  "AccX,AccY,AccZ," +:+
  "GyroX,GyroY,GyroZ".

Definition csv_header : string := csv_header_line +:+ endl.

(** [for (int j = 0; j < 8; j++) csv_file << emg_data[j] << ","]. *)
Definition emg_text (emg : list Z) : string :=
  fold_left (fun text j => text +:+ to_string (nth j emg 0) +:+ ",")
            (seq 0 8) EmptyString.

(** The text one pass of the write block sends to the file: the line,
    then [std::endl]. *)
Definition csv_line (timestamp : Z) (f : SampleFrame Num) : string :=
  to_string timestamp +:+ "," +:+
  emg_text (emg_data f) +:+
  print_num (q0 (ori_data f)) +:+ "," +:+ print_num (q1 (ori_data f)) +:+ "," +:+
  print_num (q2 (ori_data f)) +:+ "," +:+ print_num (q3 (ori_data f)) +:+ "," +:+
  print_num (v0 (acc_data f)) +:+ "," +:+ print_num (v1 (acc_data f)) +:+ "," +:+
  print_num (v2 (acc_data f)) +:+ "," +:+
  print_num (v0 (gyr_data f)) +:+ "," +:+ print_num (v1 (gyr_data f)) +:+ "," +:+
  print_num (v2 (gyr_data f)).

Definition csv_row (timestamp : Z) (f : SampleFrame Num) : string :=
  csv_line timestamp f +:+ endl.

(** The two callbacks, run by [listen] on what the device delivers. *)
Definition deliver (f : SampleFrame Num) (d : delivery Num) : SampleFrame Num :=
  match d with
  | OnEmg sample =>
      mkFrame (fold_left (fun data i => <[i := nth i sample 0]> data)
                         (seq 0 8) (emg_data f))
              (ori_data f) (acc_data f) (gyr_data f)
  | OnImu ori acc gyr => mkFrame (emg_data f) ori acc gyr
  end.

(** [duration_cast<milliseconds>] of a steady-clock difference. *)
Definition duration_cast_milliseconds (d : Z) : Z :=
  Z.quot d (Z.quot Watchdog.ticks_per_second 1000).

(** [while (client.connected() && !stop) { ... }], the data collection
    loop; [fuel] bounds the number of passes the model follows. *)
Fixpoint acquisition (fuel : nat) (filename : string)
         (frame : SampleFrame Num) (last_write_time : Z) : M W unit :=
  c <- connected ;;
  if c : bool then
    s <- read_stop ;;
    if s : bool then ret tt
    else
      match fuel with
      | O => out_of_fuel
      | S fuel' =>
          ds <- listen ;;
          let frame := fold_left deliver ds frame in
          watchdog_update ;;
          current_time <- read steady_now ;;
          last_write_time <-
            (if duration_cast_milliseconds (current_time - last_write_time) >=? 10
             then
               timestamp <- read system_now_ms ;;
               write filename (csv_row timestamp frame) ;;
               ret current_time
             else ret last_write_time) ;;
          timed_out <- watchdog_is_timeout ;;
          if timed_out : bool then throw (runtime_error "Watchdog timeout")
          else
            sleep_for 1 ;;
            acquisition fuel' filename frame last_write_time
      end
  else ret tt.

(** From the configuration of the device to the message after the
    loop. *)
Definition collect (fuel : nat) (filename : string) : M W flow :=
  setSleepMode NeverSleep ;;
  setMode SendEmg SendData Disabled ;;
  frame <- (fun s => (Val (indeterminate_frame (world s)), s)) ;;
  onEmg ;;
  onImu ;;
  last_write_time <- read steady_now ;;
  log_message "Starting data collection loop" ;;
  acquisition fuel filename frame last_write_time ;;
  close filename ;;
  c <- connected ;;
  (if negb c
   then log_message "Disconnection detected. Attempting to reconnect..."
   else ret tt) ;;
  ret Next.

(** From the opening of the CSV file on; the two programs differ in the
    text of the open error only. *)
Definition episode (fuel : nat) (filename open_error : string) : M W flow :=
  is_open <- open_append filename ;;
  if negb is_open then
    log_message (open_error +:+ filename) ;;
    ret (Return 1)
  else
    write filename csv_header ;;
    collect fuel filename.

(** [(fs::path(output_directory) / name).string()]. *)
Definition path_join (dir name : string) : string :=
  match dir with
  | EmptyString => name
  | _ =>
      match String.get (String.length dir - 1) dir with
      | Some "/"%char => dir +:+ name
      | _ => dir +:+ "/" +:+ name
      end
  end.

End Acquisition.

(** ** The current program: [src/MyoSensor/MyoLinux/src/main.cpp] *)

Module MyoLinux.
Section Program.

Context {W Num : Type} `{Env : Environment W Num}.

Definition connection_timeout : Z := 30.      (* std::chrono::seconds *)

Definition MAX_RECONNECT_ATTEMPTS : Z := 5.
Definition RECONNECT_DELAY_MS : Z := 10000.

(** The [try] block of [reconnect]'s loop: [Return 0] stands for its
    [return;], [Next] for running off its end. *)
Definition reconnect_try (address : list Z) : M W flow :=
  c <- connected ;;
  if c : bool then
    log_message "Trying to reconnect even though we're connected ..." ;;
    connect (Some (address, connection_timeout)) ;;
    setSleepMode NeverSleep ;;
    setMode SendEmg SendData Disabled ;;
    log_message "Reconnection successful!" ;;
    ret (Return 0)
  else
    log_message "Attempting to reconnect..." ;;
    c' <- connected ;;
    log_message (to_string (Z.b2z c')) ;;
    disconnect ;;
    sleep_for 1000 ;;
    connect (Some (address, connection_timeout)) ;;
    ret Next.

Definition reconnect_failed_message : string :=
  "Reconnection failed. Trying again in " +:+
  to_string (Z.quot RECONNECT_DELAY_MS 1000) +:+ " seconds...".

Definition exhausted : exception :=
  runtime_error ("Unable to reconnect after " +:+
                 to_string MAX_RECONNECT_ATTEMPTS +:+ " attempts.").

(** The [try] block with its [catch] block. *)
Definition reconnect_pass (address : list Z) : M W flow :=
  try_catch (reconnect_try address)
            (fun e =>
               log_message ("Reconnection error: " +:+ what e) ;;
               ret Next).

(** [while (reconnect_attempts < MAX_RECONNECT_ATTEMPTS) { ... } throw ...]. *)
Fixpoint reconnect_loop (fuel : nat) (address : list Z)
         (reconnect_attempts : Z) : M W unit :=
  if reconnect_attempts <? MAX_RECONNECT_ATTEMPTS then
    match fuel with
    | O => out_of_fuel
    | S fuel' =>
        r <- reconnect_pass address ;;
        match r with
        | Return _ => ret tt
        | _ =>
            let reconnect_attempts := reconnect_attempts + 1 in
            log_message reconnect_failed_message ;;
            sleep_for RECONNECT_DELAY_MS ;;
            reconnect_loop fuel' address reconnect_attempts
        end
    end
  else throw exhausted.

(** [reconnect(client, address)]: the counter starts at 0, and five passes
    are all the loop can make. *)
Definition reconnect (address : list Z) : M W unit :=
  reconnect_loop 5 address 0.

(** [mac_address_str.substr(mac_address_str.length() - 5)]: the position
    wraps around for a shorter string and [substr] throws. *)
Definition last5 (s : string) : M W string :=
  if (String.length s <? 5)%nat
  then throw (out_of_range "basic_string::substr")
  else ret (String.substring (String.length s - 5) 5 s).

(** The [try] block of the supervisor loop. *)
Definition supervise_try (fuel : nat) (output_directory mac_address_str : string)
           (address : list Z) : M W flow :=
  c <- connected ;;
  (if negb c then
     log_message "Attempting to connect to Myo..." ;;
     connect (Some (address, connection_timeout))
   else ret tt) ;;
  c <- connected ;;
  if negb c then
    log_message "Connection failed. Retrying in 5 seconds..." ;;
    sleep_for 5000 ;;
    ret Next
  else
    log_message "Successfully connected to Myo!" ;;
    t <- read time_now ;;
    suffix <- last5 mac_address_str ;;
    let filename :=
      path_join output_directory
                ("myo_data_" +:+ suffix +:+ "_" +:+ put_time t +:+ ".csv") in
    episode fuel filename "Error: Unable to open CSV file: ".

(** Its [catch] block: the two messages and the wait, then the guarded
    call of [reconnect]. *)
Definition announce (e : exception) : M W unit :=
  log_message ("Error: " +:+ what e) ;;
  log_message "Attempting to reconnect in 30 seconds..." ;;
  sleep_for 30000.

Definition recover (address : list Z) (e : exception) : M W flow :=
  announce e ;;
  try_catch (reconnect address)
            (fun e => log_message ("Reconnection failed: " +:+ what e)) ;;
  ret Next.

(** What follows the supervisor loop. *)
Definition shutdown : M W Z :=
  log_message "Disconnecting..." ;;
  try_catch disconnect (fun _ => log_message "Program ended abnormally.") ;;
  log_message "Program ended normally." ;;
  ret 0.

(** [while (!stop) { try { ... } catch ... }] and what follows it. *)
Fixpoint supervisor (fuel : nat) (output_directory mac_address_str : string)
         (address : list Z) : M W Z :=
  s <- read_stop ;;
  if s : bool then shutdown
  else
    match fuel with
    | O => out_of_fuel
    | S fuel' =>
        r <- try_catch
               (supervise_try fuel' output_directory mac_address_str address)
               (recover address) ;;
        match r with
        | Return code => ret code
        | _ => supervisor fuel' output_directory mac_address_str address
        end
    end.

(** [main]: [argv] holds the program name and the arguments. *)
Definition main (fuel : nat) (argv : list string) : M W Z :=
  log_message "Starting Myo data collection application" ;;
  if (length argv <? 3)%nat then
    log_message ("Error: Insufficient arguments. Usage: " +:+
                 nth 0 argv EmptyString +:+
                 " <output_directory> <MAC_address>") ;;
    ret 1
  else
    let output_directory := nth 1 argv EmptyString in
    let mac_address_str := nth 2 argv EmptyString in
    match ParseMac.parse_mac_address mac_address_str with
    | Val address =>
        e <- call (fs_exists output_directory) (fun _ => ESetup) ;;
        created <-
          (if negb e
           then call (fs_create_directories output_directory) (fun _ => ESetup)
           else ret true) ;;
        if negb created then
          log_message ("Error: Failed to create output directory: " +:+
                       output_directory) ;;
          ret 1
        else
          call client_open (fun _ => ESetup) ;;
          watchdog_construct 60 ;;
          supervisor fuel output_directory mac_address_str address
    | Exc e =>
        log_message ("Error parsing MAC address: " +:+ what e) ;;
        ret 1
    | Fuel => out_of_fuel
    end.

End Program.
End MyoLinux.

(** ** The earlier program: [src/MyoSensor/main.cpp]

    Its signal handler also logs a line; that line is written from the
    handler, outside the statements modelled here. *)

Module Legacy.
Section Program.

Context {W Num : Type} `{Env : Environment W Num}.

Definition MAX_RECONNECT_ATTEMPTS : Z := 5.
Definition RECONNECT_DELAY_MS : Z := 5000.

Definition connect_failed_message : string :=
  "Connection failed. Retrying in " +:+
  to_string (Z.quot RECONNECT_DELAY_MS 1000) +:+ " seconds...".

(** The [try] block of the connection loop. *)
Definition connect_try : M W flow :=
  log_message "Attempting to connect to Myo..." ;;
  connect None ;;
  c <- connected ;;
  if c : bool then
    log_message "Successfully connected to Myo!" ;;
    ret Break
  else ret Next.

(** The [try] block with its [catch] block. *)
Definition connect_pass : M W flow :=
  try_catch connect_try
            (fun e =>
               log_message ("Connection error: " +:+ what e) ;;
               ret Next).

(** [while (!client.connected() && reconnect_attempts < MAX_RECONNECT_ATTEMPTS
    && !stop) { ... }]. *)
Fixpoint connect_loop (fuel : nat) (reconnect_attempts : Z) : M W unit :=
  c <- connected ;;
  if negb c && (reconnect_attempts <? MAX_RECONNECT_ATTEMPTS) then
    s <- read_stop ;;
    if s : bool then ret tt
    else
      match fuel with
      | O => out_of_fuel
      | S fuel' =>
          r <- connect_pass ;;
          match r with
          | Break => ret tt
          | _ =>
              let reconnect_attempts := reconnect_attempts + 1 in
              log_message connect_failed_message ;;
              sleep_for RECONNECT_DELAY_MS ;;
              connect_loop fuel' reconnect_attempts
          end
      end
  else ret tt.

Definition exiting_message : string :=
  "Failed to connect to Myo after " +:+ to_string MAX_RECONNECT_ATTEMPTS +:+
  " attempts. Exiting.".

(** The [try] block of the supervisor loop. *)
Definition supervise_try (fuel : nat) (output_directory : string) : M W flow :=
  connect_loop 5 0 ;;
  c <- connected ;;
  if negb c then
    log_message exiting_message ;;
    ret (Return 1)
  else
    t <- read time_now ;;
    let filename :=
      path_join output_directory ("myo_data_" +:+ put_time t +:+ ".csv") in
    episode fuel filename "Error: Failed to open CSV file: ".

(** Its [catch] block: the disconnect is not guarded. *)
Definition recover (e : exception) : M W flow :=
  log_message ("Error: " +:+ what e) ;;
  log_message "Attempting to reconnect in 5 seconds..." ;;
  sleep_for 5000 ;;
  disconnect ;;
  ret Next.

(** What follows the supervisor loop. *)
Definition shutdown : M W Z :=
  disconnect ;;
  log_message "Program terminated gracefully." ;;
  ret 0.

Fixpoint supervisor (fuel : nat) (output_directory : string) : M W Z :=
  s <- read_stop ;;
  if s : bool then shutdown
  else
    match fuel with
    | O => out_of_fuel
    | S fuel' =>
        r <- try_catch (supervise_try fuel' output_directory) recover ;;
        match r with
        | Return code => ret code
        | _ => supervisor fuel' output_directory
        end
    end.

Definition main (fuel : nat) (argv : list string) : M W Z :=
  log_message "Starting Myo data collection application" ;;
  if (1 <? length argv)%nat then
    let output_directory := nth 1 argv EmptyString in
    e <- call (fs_exists output_directory) (fun _ => ESetup) ;;
    created <-
      (if negb e
       then call (fs_create_directories output_directory) (fun _ => ESetup)
       else ret true) ;;
    if negb created then
      log_message ("Error: Failed to create output directory: " +:+
                   output_directory) ;;
      ret 1
    else
      call client_open (fun _ => ESetup) ;;
      watchdog_construct 60 ;;
      supervisor fuel output_directory
  else
    log_message ("Error: Output directory not provided. Usage: " +:+
                 nth 0 argv EmptyString +:+ " <output_directory>") ;;
    ret 1.

End Program.
End Legacy.

(** ** A scripted environment, to run the programs on concrete scenarios *)

Module Sim.

(** The device follows plans: each call of an operation takes the next
    answer of its plan; with the plan used up, [connected] answers the
    state of the link, [connect] fails, [disconnect] succeeds.  The
    interrupt signal arrives after [sigint_in] further operations ([None]:
    never).  The clock advances only while the program sleeps. *)
Record world : Type := mk {
  link : bool;
  connected_plan : list (reply bool);
  connect_plan : list (reply unit);
  disconnect_plan : list (reply unit);
  sigint_in : option nat;
  clock_ms : Z;
  can_open : bool
}.

Definition tick (w : world) : world :=
  mk (link w) (connected_plan w) (connect_plan w) (disconnect_plan w)
     (match sigint_in w with
      | Some (S n) => Some n
      | other => other
      end)
     (clock_ms w) (can_open w).

Definition do_connected (w : world) : reply bool * world :=
  let w := tick w in
  match connected_plan w with
  | r :: plan =>
      (r, mk (link w) plan (connect_plan w) (disconnect_plan w)
             (sigint_in w) (clock_ms w) (can_open w))
  | [] => (Ok (link w), w)
  end.

Definition link_down : exception := runtime_error "link down".

Definition do_connect (w : world) : reply unit * world :=
  let w := tick w in
  match connect_plan w with
  | r :: plan =>
      (r, mk (match r with Ok _ => true | Throws _ => link w end)
             (connected_plan w) plan (disconnect_plan w)
             (sigint_in w) (clock_ms w) (can_open w))
  | [] => (Throws link_down, w)
  end.

Definition do_disconnect (w : world) : reply unit * world :=
  let w := tick w in
  match disconnect_plan w with
  | r :: plan =>
      (r, mk false (connected_plan w) (connect_plan w) plan
             (sigint_in w) (clock_ms w) (can_open w))
  | [] =>
      (Ok tt, mk false (connected_plan w) (connect_plan w) []
                 (sigint_in w) (clock_ms w) (can_open w))
  end.

Definition do_sleep (ms : Z) (w : world) : world :=
  let w := tick w in
  mk (link w) (connected_plan w) (connect_plan w) (disconnect_plan w)
     (sigint_in w) (clock_ms w + ms) (can_open w).

Definition is_stopped (w : world) : bool :=
  match sigint_in w with
  | Some O => true
  | _ => false
  end.

(** What the device delivers at one poll: a synthetic signal that follows
    the clock. *)
Definition samples (w : world) : list (delivery Z) :=
  let t := clock_ms w mod 100 in
  [OnEmg (map (fun k => t + Z.of_nat k) (seq 1 8));
   OnImu (mkVec4 16384 (- t) 0 t) (mkVec3 t 0 2048) (mkVec3 0 (- t) 1)].

(** [%Y%m%d_%H%M%S] in UTC, from the days-to-civil-date conversion. *)
Definition two (z : Z) : string :=
  (if z <? 10 then "0" else "") +:+ to_string z.

Definition utc_stamp (t : Z) : string :=
  let days := t / 86400 in
  let secs := t mod 86400 in
  let z := days + 719468 in
  let era := z / 146097 in
  let doe := z - era * 146097 in
  let yoe := (doe - doe / 1460 + doe / 36524 - doe / 146096) / 365 in
  let doy := doe - (365 * yoe + yoe / 4 - yoe / 100) in
  let mp := (5 * doy + 2) / 153 in
  let d := doy - (153 * mp + 2) / 5 + 1 in
  let m := if mp <? 10 then mp + 3 else mp - 9 in
  let y := yoe + era * 400 + (if m <=? 2 then 1 else 0) in
  to_string y +:+ two m +:+ two d +:+ "_" +:+
  two (secs / 3600) +:+ two (secs mod 3600 / 60) +:+ two (secs mod 60).

#[global] Instance env : Environment world Z := {|
  client_open w := (Ok tt, tick w);
  client_connected := do_connected;
  client_connect _ := do_connect;
  client_disconnect := do_disconnect;
  client_setSleepMode _ w := (Ok tt, tick w);
  client_setMode _ _ _ w := (Ok tt, tick w);
  client_onEmg w := (Ok tt, tick w);
  client_onImu w := (Ok tt, tick w);
  client_listen w := (Ok (samples w), tick w);
  steady_now w := (clock_ms w * 1000000, w);
  system_now_ms w := (clock_ms w, w);
  time_now w := (clock_ms w / 1000, w);
  put_time := utc_stamp;
  sleep_for_ms := do_sleep;
  stop := is_stopped;
  fs_exists _ w := (Ok true, tick w);
  fs_create_directories _ w := (Ok true, tick w);
  ofstream_is_open _ w := (can_open w, tick w);
  indeterminate_frame _ :=
    mkFrame (replicate 8 0) (mkVec4 0 0 0 0) (mkVec3 0 0 0) (mkVec3 0 0 0);
  print_num := to_string
|}.

Definition start (w : world) : state world :=
  mkState w [] ∅ (Watchdog.make 60 0).

End Sim.

(** ** Device addresses as the specification words them

    "Six colon-separated hexadecimal octets": the text of an address is six
    two-digit groups joined by colons.  These definitions follow the
    specification, not the parser; the theorems compare the two. *)

Module Address.

Definition octet_text (o : ascii * ascii) : string :=
  String (fst o) (String (snd o) EmptyString).

Fixpoint text (octets : list (ascii * ascii)) : string :=
  match octets with
  | [] => EmptyString
  | [o] => octet_text o
  | o :: rest => octet_text o +:+ ":" +:+ text rest
  end.

Definition hex_value (c : ascii) : Z := default 0 (ParseMac.hex_digit c).



(** Splitting at every colon. *)
Fixpoint groups (s : string) : list string :=
  match s with
  | EmptyString => [EmptyString]
  | String a s' =>
      if Ascii.eqb a ":"%char then EmptyString :: groups s'
      else match groups s' with
           | g :: gs => String a g :: gs
           | [] => [String a EmptyString]
           end
  end.




End Address.

(** ** What the parser accepts, in words

    The reading of an address that the corrected form of the parsing claim
    describes, written without the stream and without [strtol]: the text is
    split at its colons, the first six groups are read as numbers and
    reduced to bytes.  The properties compare [parse_mac_address] with
    it. *)

Module Reading.

Import ParseMac.

(** The longest front part of [s] whose characters satisfy [p], and the
    text with that part removed. *)
Fixpoint leading (p : ascii -> bool) (s : string) : string :=
  match s with
  | String c r => if p c then String c (leading p r) else EmptyString
  | EmptyString => EmptyString
  end.

Fixpoint after (p : ascii -> bool) (s : string) : string :=
  match s with
  | String c r => if p c then after p r else s
  | EmptyString => EmptyString
  end.

(** The value of a run of hexadecimal digits, in positional notation. *)
Fixpoint hex_number (ds : string) : Z :=
  match ds with
  | String c r =>
      Address.hex_value c * 16 ^ Z.of_nat (String.length r) + hex_number r
  | EmptyString => 0
  end.

Definition negative (body : string) : bool :=
  match body with
  | String c _ => Ascii.eqb c "-"%char
  | EmptyString => false
  end.

(** The text after an optional sign. *)
Definition unsigned (body : string) : string :=
  match body with
  | String c r =>
      if Ascii.eqb c "-"%char || Ascii.eqb c "+"%char then r else body
  | EmptyString => body
  end.

(** The text after an optional [0x] or [0X]; the two characters count as
    a prefix only when a hexadecimal digit follows them. *)
Definition without_prefix (u : string) : string :=
  match u with
  | String z (String x (String h r)) =>
      if Ascii.eqb z "0"%char
         && (Ascii.eqb x "x"%char || Ascii.eqb x "X"%char)
         && is_hex h
      then String h r else u
  | _ => u
  end.

(** The digits read from a group: those that follow the optional white
    space, sign and prefix, up to the first character that is no
    hexadecimal digit. *)
Definition digits (g : string) : string :=
  leading is_hex (without_prefix (unsigned (after isspace g))).

(** The number a group stands for, if it has one. *)
Definition number (g : string) : option Z :=
  match digits g with
  | EmptyString => None
  | ds =>
      Some (if negative (after isspace g) then - hex_number ds
            else hex_number ds)
  end.


Definition fits_int (v : Z) : bool := (INT_MIN <=? v) && (v <=? INT_MAX).

(** The byte a group gives: its number, which has to fit an [int],
    modulo 256. *)
Definition byte_of (g : string) : option Z :=
  match number g with
  | Some v => if fits_int v then Some (v mod 256) else None
  | None => None
  end.

(** The bytes of the first [n] groups, when there are [n] groups and each
    of them gives a byte. *)
Definition first_bytes (n : nat) (gs : list string) : option (list Z) :=
  if (length (take n gs) =? n)%nat then mapM byte_of (take n gs) else None.

Definition accepted (s : string) : option (list Z) :=
  first_bytes 6 (Address.groups s).




End Reading.

(** ** Counting in traces *)

Definition is_connect (ev : event) : bool :=
  match ev with EConnect _ => true | _ => false end.

Definition is_failed_connect (ev : event) : bool :=
  match ev with EConnect (Throws _) => true | _ => false end.

Definition is_log (message : string) (ev : event) : bool :=
  match ev with ELog m => String.eqb m message | _ => false end.

Definition last_events (k : nat) (tr : list event) : list event :=
  skipn (length tr - k) tr.

Definition count (p : event -> bool) (tr : list event) : nat :=
  length (List.filter p tr).

(** A property of every suffix of a trace, that is of what follows every
    position. *)
Fixpoint each_suffix (P : list event -> Prop) (tr : list event) : Prop :=
  match tr with
  | [] => P []
  | ev :: rest => P tr /\ each_suffix P rest
  end.

(** ** The events of a run of [reconnect]

    One pass of the loop either succeeds, through the branch taken when the
    client reports that it is connected, or fails in one of eight ways; a run
    is a sequence of failed passes, each followed by the back-off, ended by a
    successful pass or by the counter reaching the maximum. *)

Module Shape.

Import MyoLinux.

Definition error_log (e : exception) : event :=
  ELog ("Reconnection error: " +:+ what e).

Definition trying : event :=
  ELog "Trying to reconnect even though we're connected ...".

Definition attempting : event := ELog "Attempting to reconnect...".

Definition configured : list event :=
  [ESetSleepMode NeverSleep (Ok tt);
   ESetMode SendEmg SendData Disabled (Ok tt);
   ELog "Reconnection successful!"].

Definition success_pass : list event :=
  [EConnected (Ok true); trying; EConnect (Ok tt)] ++ configured.

(** The disconnected branch up to its [disconnect()]. *)
Definition probe (c : bool) : list event :=
  [EConnected (Ok false); attempting; EConnected (Ok c);
   ELog (to_string (Z.b2z c))].

Definition backoff : list event :=
  [ELog reconnect_failed_message; ESleep RECONNECT_DELAY_MS].

Inductive failed_pass : list event -> Prop :=
  | fp_connected (e : exception) :
      failed_pass [EConnected (Throws e); error_log e]
  | fp_again_connect (e : exception) :
      failed_pass [EConnected (Ok true); trying; EConnect (Throws e);
                   error_log e]
  | fp_again_sleep_mode (e : exception) :
      failed_pass [EConnected (Ok true); trying; EConnect (Ok tt);
                   ESetSleepMode NeverSleep (Throws e); error_log e]
  | fp_again_mode (e : exception) :
      failed_pass [EConnected (Ok true); trying; EConnect (Ok tt);
                   ESetSleepMode NeverSleep (Ok tt);
                   ESetMode SendEmg SendData Disabled (Throws e);
                   error_log e]
  | fp_second_connected (e : exception) :
      failed_pass [EConnected (Ok false); attempting;
                   EConnected (Throws e); error_log e]
  | fp_disconnect (c : bool) (e : exception) :
      failed_pass (probe c ++ [EDisconnect (Throws e); error_log e])
  | fp_connect (c : bool) (e : exception) :
      failed_pass (probe c ++ [EDisconnect (Ok tt); ESleep 1000;
                               EConnect (Throws e); error_log e])
  | fp_connect_ok (c : bool) :
      failed_pass (probe c ++ [EDisconnect (Ok tt); ESleep 1000;
                               EConnect (Ok tt)]).

(** The events of the loop entered with the counter at [n], and how the
    routine ends. *)
Inductive run_from : Z -> list event -> outcome unit -> Prop :=
  | run_exhausted (n : Z) :
      MAX_RECONNECT_ATTEMPTS <= n ->
      run_from n [] (Exc exhausted)
  | run_success (n : Z) :
      n < MAX_RECONNECT_ATTEMPTS ->
      run_from n success_pass (Val tt)
  | run_retry (n : Z) (p tr : list event) (r : outcome unit) :
      n < MAX_RECONNECT_ATTEMPTS ->
      failed_pass p ->
      run_from (n + 1) tr r ->
      run_from n (p ++ backoff ++ tr) r.

Definition is_stop_read (ev : event) : bool :=
  match ev with EStop _ => true | _ => false end.

(** After a failed pass the run either is over, exhausted, or goes on
    with the [connected()] call that opens the next pass. *)
Definition resumes (r : outcome unit) (rest : list event) : Prop :=
  (rest = [] /\ r = Exc exhausted) \/
  (exists (rep : reply bool) (rest' : list event), rest = EConnected rep :: rest').

(** At this position, a [connect] that threw is followed by the log of its
    exception and by the back-off. *)
Definition caught_at (r : outcome unit) (post : list event) : Prop :=
  forall (e : exception) (post' : list event),
    post = EConnect (Throws e) :: post' ->
    exists rest : list event,
      post' = error_log e :: backoff ++ rest /\ resumes r rest.

End Shape.

(** ** The events of the connection loop of the earlier program *)

Module LegacyShape.

Import Legacy.

Definition error_log (e : exception) : event :=
  ELog ("Connection error: " +:+ what e).

(** The loop condition held and the [try] block was entered. *)
Definition entered : list event :=
  [EConnected (Ok false); EStop false; ELog "Attempting to connect to Myo..."].

Definition backoff : list event :=
  [ELog connect_failed_message; ESleep RECONNECT_DELAY_MS].

(** What a pass that does not [break] does inside the [try] block. *)
Inductive failed_pass : list event -> Prop :=
  | fp_connect (e : exception) :
      failed_pass [EConnect (Throws e); error_log e]
  | fp_connected (e : exception) :
      failed_pass [EConnect (Ok tt); EConnected (Throws e); error_log e]
  | fp_no_link :
      failed_pass [EConnect (Ok tt); EConnected (Ok false)].

(** The events of the loop entered with the counter at [n]: it ends when
    the condition fails or throws, or with the [break]. *)
Inductive run_from : Z -> list event -> outcome unit -> Prop :=
  | run_condition_throws (n : Z) (e : exception) :
      run_from n [EConnected (Throws e)] (Exc e)
  | run_linked (n : Z) :
      run_from n [EConnected (Ok true)] (Val tt)
  | run_exhausted (n : Z) :
      MAX_RECONNECT_ATTEMPTS <= n ->
      run_from n [EConnected (Ok false)] (Val tt)
  | run_stopped (n : Z) :
      n < MAX_RECONNECT_ATTEMPTS ->
      run_from n [EConnected (Ok false); EStop true] (Val tt)
  | run_break (n : Z) :
      n < MAX_RECONNECT_ATTEMPTS ->
      run_from n (entered ++ [EConnect (Ok tt); EConnected (Ok true);
                              ELog "Successfully connected to Myo!"])
               (Val tt)
  | run_retry (n : Z) (p tr : list event) (r : outcome unit) :
      n < MAX_RECONNECT_ATTEMPTS ->
      failed_pass p ->
      run_from (n + 1) tr r ->
      run_from n (entered ++ p ++ backoff ++ tr) r.

(** At this position, a [connect] that threw is followed by the log of its
    exception, the back-off and the next evaluation of the loop condition. *)
Definition caught_at (post : list event) : Prop :=
  forall (e : exception) (post' : list event),
    post = EConnect (Throws e) :: post' ->
    exists (rep : reply bool) (rest : list event),
      post' = error_log e :: backoff ++ EConnected rep :: rest.

End LegacyShape.

(** ** CSV rows *)

(** The text of some rows, one after the other. *)
Definition text_of (rows : list string) : string :=
  fold_right String.append EmptyString rows.

(** A row of the file: a line of 19 comma-separated fields, then the end of
    line. *)
Definition well_formed_row (row : string) : Prop :=
  exists line : string,
    row = line +:+ endl /\
    length (csv_fields line) = 19%nat /\
    count_char newline line = 0%nat.

(** A data row: what the write block sends to the file for some timestamp
    and some frame. *)
Definition data_row {W Num : Type} `{Env : Environment W Num} (row : string)
  : Prop :=
  exists (timestamp : Z) (f : SampleFrame Num), row = csv_row timestamp f.

(** A computation that only adds data rows at the end of a file that
    exists. *)
Definition appends_rows {W Num : Type} `{Env : Environment W Num} {A : Type}
           (filename : string) (m : M W A) : Prop :=
  forall st : state W,
    is_Some (files st !! filename) ->
    exists rows : list string,
      Forall data_row rows /\
      files (snd (m st)) = append_text filename (text_of rows) (files st).

(** What the theorems ask of [operator<<] on a sample component: its text
    holds no comma and no line end (true of the integer and floating-point
    formats of the classic locale). *)
Definition plain_numbers {W Num : Type} `{Env : Environment W Num} : Prop :=
  forall x : Num,
    count_char "," (print_num x) = 0%nat /\
    count_char newline (print_num x) = 0%nat.

(** ** Scenarios for the scripted environment *)

Module Scenario.

Definition address : list Z := [200; 47; 132; 229; 136; 175].

(** The device is out of reach: no link, every [connect] fails. *)
Definition unreachable : Sim.world :=
  Sim.mk false [] [] [] None 1700000000000 true.

(** The same, with the interrupt signal already delivered. *)
Definition unreachable_stopped : Sim.world :=
  Sim.mk false [] [] [] (Some 0%nat) 1700000000000 true.

(** The client reports a link and [connect] succeeds. *)
Definition linked : Sim.world :=
  Sim.mk true [] [Ok tt] [] None 1700000000000 true.

(** Four failing [connect]s, then one that succeeds. *)
Definition fifth_time : Sim.world :=
  Sim.mk false []
         [Throws Sim.link_down; Throws Sim.link_down; Throws Sim.link_down;
          Throws Sim.link_down; Ok tt]
         [] None 1700000000000 true.

(** One [connect] that succeeds at once. *)
Definition first_time : Sim.world :=
  Sim.mk false [] [Ok tt] [] None 1700000000000 true.

(** The device connects at once; the signal arrives while data is being
    collected; the final [disconnect] fails. *)
Definition interrupted : Sim.world :=
  Sim.mk false [] [Ok tt] [Throws Sim.link_down] (Some 14%nat)
         1700000000000 true.

(** The device is out of reach and the signal arrives during the first
    connection attempt. *)
Definition interrupted_unreachable : Sim.world :=
  Sim.mk false [] [] [] (Some 4%nat) 1700000000000 true.

(** The device connects and drops the link at once, twice within the same
    second; then the signal arrives. *)
Definition flapping : Sim.world :=
  Sim.mk false
         [Ok false; Ok true; Ok false; Ok false;
          Ok false; Ok true; Ok false; Ok false]
         [Ok tt; Ok tt] [] (Some 22%nat) 1700000000000 true.

(** The device connects at once and stays connected; the signal arrives
    after sixty operations. *)
Definition steady : Sim.world :=
  Sim.mk false [] [Ok tt] [] (Some 60%nat) 1700000000000 true.

Definition argv : list string := ["myo"; "out"; "c8:2f:84:e5:88:af"]%string.
Definition legacy_argv : list string := ["myo"; "out"]%string.

End Scenario.

(** ** Further notions used by the properties *)

Definition is_byte (b : Z) : Prop := 0 <= b < 256.

(** The last EMG sample, and the last IMU samples, among what one poll
    delivers. *)
Fixpoint last_emg {Num : Type} (ds : list (delivery Num)) : option (list Z) :=
  match ds with
  | [] => None
  | d :: rest =>
      match last_emg rest with
      | Some sample => Some sample
      | None => match d with OnEmg sample => Some sample | OnImu _ _ _ => None end
      end
  end.

Fixpoint last_imu {Num : Type} (ds : list (delivery Num))
  : option (Vec4 Num * Vec3 Num * Vec3 Num) :=
  match ds with
  | [] => None
  | d :: rest =>
      match last_imu rest with
      | Some imu => Some imu
      | None =>
          match d with
          | OnImu ori acc gyr => Some (ori, acc, gyr)
          | OnEmg _ => None
          end
      end
  end.

Definition full_sample {Num : Type} (d : delivery Num) : Prop :=
  match d with
  | OnEmg sample => length sample = 8%nat
  | OnImu _ _ _ => True
  end.

(** The time a run spends in [sleep_for], in milliseconds. *)
Fixpoint sleep_total (tr : list event) : Z :=
  match tr with
  | [] => 0
  | ESleep ms :: rest => ms + sleep_total rest
  | _ :: rest => sleep_total rest
  end.

(** At this position, a read of the stop flag that found it set is the last
    thing the loop did. *)
Definition ends_at_stop (post : list event) : Prop :=
  forall post' : list event, post = EStop true :: post' -> post' = [].

(** More scripted devices. *)
Module Scenario2.

(** The signal was delivered and the final [disconnect] fails. *)
Definition stopped_bad_disconnect : Sim.world :=
  Sim.mk false [] [] [Throws Sim.link_down] (Some 0%nat) 1700000000000 true.

(** The link is up for one pass of the collection loop, then the client
    fails. *)
Definition failing_link : Sim.world :=
  Sim.mk true [Ok true; Throws Sim.link_down] [] [] None 1700000000000 true.

End Scenario2.

(** ** The events of the collection loop

    Every pass starts with [connected()] and a read of the stop flag, then
    polls; [fired] tells whether the run was ended by the watchdog. *)

Module AcqShape.

Definition guard : list event := [EConnected (Ok true); EStop false].

Inductive run : list event -> outcome unit -> bool -> Prop :=
  | run_condition_throws (e : exception) :
      run [EConnected (Throws e)] (Exc e) false
  | run_unlinked :
      run [EConnected (Ok false)] (Val tt) false
  | run_stopped :
      run [EConnected (Ok true); EStop true] (Val tt) false
  | run_out :
      run guard Fuel false
  | run_listen_throws (e : exception) :
      run (guard ++ [EListen false]) (Exc e) false
  | run_watchdog :
      run (guard ++ [EListen true]) (Exc (runtime_error "Watchdog timeout")) true
  | run_pass (tr : list event) (r : outcome unit) (fired : bool) :
      run tr r fired ->
      run (guard ++ [EListen true; ESleep 1] ++ tr) r fired.

End AcqShape.

(** Between the [update()] of a pass of the collection loop and the
    [is_timeout()] of the same pass (two readings of the steady clock later,
    with or without a reading of the system clock in between), the steady
    clock advances by less than 61 seconds. *)
Definition quick_clock {W Num : Type} `{Env : Environment W Num} : Prop :=
  forall w : W,
    let '(t1, w1) := steady_now w in
    let '(_, w2) := steady_now w1 in
    fst (steady_now w2) - t1 < 61 * Watchdog.ticks_per_second /\
    fst (steady_now (snd (system_now_ms w2))) - t1
    < 61 * Watchdog.ticks_per_second.

(** ** What a computation returns, and what it does to the files *)

(** Every value the computation returns satisfies [P]. *)
Definition returns_only {W A : Type} (P : A -> Prop) (m : M W A) : Prop :=
  forall (st : state W) (a : A), fst (m st) = Val a -> P a.

(** Every file is still there, with what it held at its front. *)
Definition grows (fs fs' : gmap string string) : Prop :=
  forall (f c : string),
    fs !! f = Some c -> exists c' : string, fs' !! f = Some (c +:+ c').

Definition extends {W A : Type} (m : M W A) : Prop :=
  forall st : state W, grows (files st) (files (snd (m st))).

(** A pass of a supervisor loop goes on with the loop or returns 1. *)
Definition goes_on_or_fails (r : flow) : Prop := r = Next \/ r = Return 1.

(** ** The sensor firmware: [src/SEN55_source_code/SEN55_transmission.cpp]

    The timing of [loop()].  The payload is packed from floating-point
    readings and is not modelled; what [loop()] does with the time is. *)

Module SEN55.

Definition MEASUREMENT_INTERVAL : Z := 1000.

(** [unsigned long] on the Arduino cores: 32 bits, arithmetic modulo
    [2^32]. *)
Definition ULONG : Z := 2 ^ 32.
Definition wrap (z : Z) : Z := z mod ULONG.

(** [millis()] when the board has been up for [uptime] milliseconds. *)
Definition millis (uptime : Z) : Z := wrap uptime.

Inductive action : Type :=
  | Idle                 (* the interval has not elapsed *)
  | ReadFailed           (* readMeasuredValues returned an error: return *)
  | Advertised.          (* values packed and advertised *)

(** One call of [loop()]: [currentTime] is what [millis()] returns,
    [read_error] what [readMeasuredValues] returns if it is called; the
    result is the new [lastMeasurementTime] and what the call did. *)
Definition loop (currentTime read_error lastMeasurementTime : Z) : Z * action :=
  if MEASUREMENT_INTERVAL <=? wrap (currentTime - lastMeasurementTime) then
    (currentTime, if read_error =? 0 then Advertised else ReadFailed)
  else (lastMeasurementTime, Idle).

End SEN55.

(** ** A device that is never there

    An environment in which no signal arrives, the client never reports a
    connection and every [connect] fails. *)

Module Dead.

Definition gone : exception := runtime_error "no device".

#[global] Instance env : Environment unit Z := {|
  client_open w := (Ok tt, w);
  client_connected w := (Ok false, w);
  client_connect _ w := (Throws gone, w);
  client_disconnect w := (Ok tt, w);
  client_setSleepMode _ w := (Throws gone, w);
  client_setMode _ _ _ w := (Throws gone, w);
  client_onEmg w := (Ok tt, w);
  client_onImu w := (Ok tt, w);
  client_listen w := (Throws gone, w);
  steady_now w := (0, w);
  system_now_ms w := (0, w);
  time_now w := (0, w);
  put_time := Sim.utc_stamp;
  sleep_for_ms _ w := w;
  stop _ := false;
  fs_exists _ w := (Ok true, w);
  fs_create_directories _ w := (Ok true, w);
  ofstream_is_open _ w := (true, w);
  indeterminate_frame _ :=
    mkFrame (replicate 8 0) (mkVec4 0 0 0 0) (mkVec3 0 0 0) (mkVec3 0 0 0);
  print_num := to_string
|}.

Definition start : state unit := mkState tt [] ∅ (Watchdog.make 60 0).

End Dead.

(** * Properties *)

(** ** The watchdog *)

Section WatchdogFacts.

Import Watchdog.

Lemma cast_seconds_nonneg (d : Z) :
  0 <= d -> duration_cast_seconds d = d / ticks_per_second.
Proof.
  intros Hd. unfold duration_cast_seconds.
  apply Z.quot_div_nonneg; [exact Hd | reflexivity].
Qed.

(** C3, as the code has it: right after [update()] the watchdog is not
    timed out, and at a later reading of the clock it is timed out exactly
    when the elapsed time, cut down to whole seconds, exceeds the
    threshold, that is from [threshold + 1] seconds on. *)
Theorem watchdog_whole_seconds (wd : ConnectionWatchdog) (t0 now : Z) :
  0 <= timeout wd ->
  t0 <= now ->
  is_timeout (update wd t0) t0 = false /\
  (is_timeout (update wd t0) now = true <->
   (timeout wd + 1) * ticks_per_second <= now - t0).
Proof.
  intros HT Hle. unfold is_timeout. cbn [last_activity timeout update].
  split.
  - rewrite Z.sub_diag. change (duration_cast_seconds 0) with 0.
    rewrite Z.gtb_ltb. apply Z.ltb_ge. exact HT.
  - rewrite cast_seconds_nonneg by lia.
    rewrite Z.gtb_ltb, Z.ltb_lt.
    assert (Hp : 0 < ticks_per_second) by reflexivity.
    split; intros H.
    + pose proof (Z.mul_div_le (now - t0) ticks_per_second Hp) as Hm.
      nia.
    + assert (timeout wd + 1 <= (now - t0) / ticks_per_second); [| lia].
      apply Z.div_le_lower_bound; lia.
Qed.

Lemma watchdog_whole_seconds_witness :
  is_timeout (update (make 60 0) 5) 5 = false /\
  (is_timeout (update (make 60 0) 5) 61000000005 = true <->
   (60 + 1) * ticks_per_second <= 61000000005 - 5).
Proof.
  apply (watchdog_whole_seconds (make 60 0) 5 61000000005).
  - cbn. lia.
  - lia.
Defined.

(** C3 as stated fails: 60.5 s after the last [update()], with the
    threshold at 60 s, the elapsed time exceeds the threshold and
    [is_timeout()] still answers false. *)
Lemma watchdog_not_exact :
  ~ (forall (wd : ConnectionWatchdog) (t0 now : Z),
        0 <= timeout wd -> t0 <= now ->
        (is_timeout (update wd t0) now = true <->
         timeout wd * ticks_per_second < now - t0)).
Proof.
  intros H.
  specialize (H (make 60 0) 0 60500000000).
  cbn in H. destruct H as [_ H]; [lia | lia |].
  discriminate H. reflexivity.
Qed.

End WatchdogFacts.

(** ** The device-address parser *)

Section ParseFacts.

Import ParseMac Address.














Lemma groups_take_field (s : string) :
  exists gs : list string,
    groups s = fst (take_field ":" s) :: gs /\
    ((gs = [] /\ snd (take_field ":" s) = EmptyString) \/
     gs = groups (snd (take_field ":" s))).
Proof.
  induction s as [| a s IH].
  - exists []. cbn. auto.
  - cbn [groups take_field]. destruct (Ascii.eqb a ":").
    + exists (groups s). cbn. auto.
    + destruct IH as (gs & Hg & Hrest). rewrite Hg.
      destruct (take_field ":" s) as [f r]. cbn [fst snd] in *.
      exists gs. split; [reflexivity | exact Hrest].
Qed.



End ParseFacts.

(** ** The reconnection routine *)

Section ReconnectFacts.

Context {W Num : Type} `{Env : Environment W Num}.

Import MyoLinux Shape.

Lemma trace_emit (ev : event) (s : state W) :
  trace (emit ev s) = trace s ++ [ev].
Proof. reflexivity. Qed.

Lemma state_eq (a b : state W) :
  world a = world b -> trace a = trace b ->
  files a = files b -> watchdog a = watchdog b -> a = b.
Proof. destruct a, b. cbn. intros -> -> -> ->. reflexivity. Qed.

(** One pass: it succeeds with the events of [success_pass], or goes on
    to the back-off with those of a [failed_pass]. *)
Lemma reconnect_pass_shape (address : list Z) (st : state W) :
  exists p : list event,
    trace (snd (reconnect_pass address st)) = trace st ++ p /\
    ((fst (reconnect_pass address st) = Val (Return 0) /\ p = success_pass) \/
     (fst (reconnect_pass address st) = Val Next /\ failed_pass p)).
Proof.
  unfold reconnect_pass, reconnect_try, try_catch, bind, ret, connected,
    connect, disconnect, setSleepMode, setMode, call, log_message, sleep_for.
  cbn.
  destruct (client_connected (world st)) as [[[] | e] w1]; cbn.
  - destruct (client_connect _ w1) as [[[] | e] w2]; cbn.
    + destruct (client_setSleepMode NeverSleep w2) as [[[] | e] w3]; cbn.
      * destruct (client_setMode SendEmg SendData Disabled w3) as [[[] | e] w4]; cbn.
        -- eexists. split; [rewrite <- !app_assoc; reflexivity |].
           left. split; reflexivity.
        -- eexists. split; [rewrite <- !app_assoc; reflexivity |].
           right. split; [reflexivity | apply fp_again_mode].
      * eexists. split; [rewrite <- !app_assoc; reflexivity |].
        right. split; [reflexivity | apply fp_again_sleep_mode].
    + eexists. split; [rewrite <- !app_assoc; reflexivity |].
      right. split; [reflexivity | apply fp_again_connect].
  - destruct (client_connected w1) as [[c | e] w2]; cbn.
    + destruct (client_disconnect w2) as [[[] | e] w3]; cbn.
      * destruct (client_connect _ _) as [[[] | e] w4]; cbn.
        -- eexists. split; [rewrite <- !app_assoc; reflexivity |].
           right. split; [reflexivity | apply (fp_connect_ok c)].
        -- eexists. split; [rewrite <- !app_assoc; reflexivity |].
           right. split; [reflexivity | apply (fp_connect c e)].
      * eexists. split; [rewrite <- !app_assoc; reflexivity |].
        right. split; [reflexivity | apply (fp_disconnect c e)].
    + eexists. split; [rewrite <- !app_assoc; reflexivity |].
      right. split; [reflexivity | apply fp_second_connected].
  - eexists. split; [rewrite <- !app_assoc; reflexivity |].
    right. split; [reflexivity | apply fp_connected].
Qed.

(** The loop: with at least as much fuel as passes are left, its events
    are those of a [run_from] and its result is that run's. *)
Lemma reconnect_loop_shape (fuel : nat) :
  forall (address : list Z) (n : Z) (st st' : state W) (r : outcome unit),
    (Z.to_nat (MAX_RECONNECT_ATTEMPTS - n) <= fuel)%nat ->
    reconnect_loop fuel address n st = (r, st') ->
    exists tr : list event, trace st' = trace st ++ tr /\ run_from n tr r.
Proof.
  induction fuel as [| fuel IH]; intros address n st st' r Hfuel Hrun.
  - cbn [reconnect_loop] in Hrun.
    destruct (Z.ltb_spec n MAX_RECONNECT_ATTEMPTS) as [Hlt | Hge]; [lia |].
    injection Hrun as <- <-.
    exists []. rewrite app_nil_r. split; [reflexivity |].
    apply run_exhausted. exact Hge.
  - cbn [reconnect_loop] in Hrun.
    destruct (Z.ltb_spec n MAX_RECONNECT_ATTEMPTS) as [Hlt | Hge].
    + unfold bind at 1 in Hrun.
      destruct (reconnect_pass_shape address st) as (p & Htr & Hp).
      destruct (reconnect_pass address st) as [r1 st1]. cbn [fst snd] in *.
      destruct Hp as [[-> ->] | [-> Hp]].
      * injection Hrun as <- <-.
        exists success_pass. split; [exact Htr |].
        apply run_success. exact Hlt.
      * unfold bind, log_message, sleep_for in Hrun.
        apply IH in Hrun as (tr & Htr' & Hrun); [| lia].
        exists (p ++ backoff ++ tr). split.
        -- rewrite Htr'. cbn. rewrite Htr, <- !app_assoc. reflexivity.
        -- apply run_retry; assumption.
    + injection Hrun as <- <-.
      exists []. rewrite app_nil_r. split; [reflexivity |].
      apply run_exhausted. exact Hge.
Qed.

Lemma reconnect_shape (address : list Z) (st : state W) :
  exists tr : list event,
    trace (snd (reconnect address st)) = trace st ++ tr /\
    run_from 0 tr (fst (reconnect address st)).
Proof.
  destruct (reconnect address st) as [r st'] eqn:Hrun.
  apply (reconnect_loop_shape 5 address 0 st st' r); [vm_compute; lia | exact Hrun].
Qed.

(** *** Counting over the events of a run *)

Lemma count_app (p : event -> bool) (l1 l2 : list event) :
  count p (l1 ++ l2) = (count p l1 + count p l2)%nat.
Proof. unfold count. rewrite List.filter_app, length_app. reflexivity. Qed.

Lemma count_failed_le_connect (tr : list event) :
  (count is_failed_connect tr <= count is_connect tr)%nat.
Proof.
  induction tr as [| ev tr IH]; [reflexivity |].
  change (ev :: tr) with ([ev] ++ tr). rewrite !count_app.
  assert (count is_failed_connect [ev] <= count is_connect [ev])%nat; [| lia].
  destruct ev as [| | | | | [] | | | | | | |]; cbn; lia.
Qed.

Lemma failed_pass_counts (p : list event) :
  failed_pass p ->
  (count is_connect p <= 1)%nat /\
  count (is_log reconnect_failed_message) p = 0%nat /\
  count is_stop_read p = 0%nat.
Proof.
  intros Hp. destruct Hp; try destruct c; vm_compute; repeat split; lia.
Qed.

Lemma run_from_counts (n : Z) (tr : list event) (r : outcome unit) :
  run_from n tr r ->
  (count is_connect tr <= Z.to_nat (MAX_RECONNECT_ATTEMPTS - n))%nat /\
  (count (is_log reconnect_failed_message) tr
   <= Z.to_nat (MAX_RECONNECT_ATTEMPTS - n))%nat /\
  count is_stop_read tr = 0%nat /\
  (r = Val tt \/ r = Exc exhausted) /\
  (r = Exc exhausted -> n <= MAX_RECONNECT_ATTEMPTS ->
   count (is_log reconnect_failed_message) tr
   = Z.to_nat (MAX_RECONNECT_ATTEMPTS - n)) /\
  (count is_failed_connect tr = Z.to_nat (MAX_RECONNECT_ATTEMPTS - n) ->
   r = Exc exhausted /\
   count is_connect tr = Z.to_nat (MAX_RECONNECT_ATTEMPTS - n)).
Proof.
  induction 1 as [n Hge | n Hlt | n p tr r Hlt Hp Hrun IH].
  - cbn. repeat split; try lia; auto.
  - assert (Hk : (1 <= Z.to_nat (MAX_RECONNECT_ATTEMPTS - n))%nat) by lia.
    change (count is_connect success_pass) with 1%nat.
    change (count (is_log reconnect_failed_message) success_pass) with 0%nat.
    change (count is_stop_read success_pass) with 0%nat.
    change (count is_failed_connect success_pass) with 0%nat.
    repeat split; try lia; auto. intros [=].
  - destruct IH as (Hc & Hl & Hs & Hr & Hex & Hall).
    destruct (failed_pass_counts p Hp) as (Hpc & Hpl & Hps).
    pose proof (count_failed_le_connect p) as Hpf.
    pose proof (count_failed_le_connect tr) as Htf.
    assert (Hk : Z.to_nat (MAX_RECONNECT_ATTEMPTS - n)
                 = S (Z.to_nat (MAX_RECONNECT_ATTEMPTS - (n + 1)))) by lia.
    rewrite !count_app.
    change (count is_connect backoff) with 0%nat.
    change (count (is_log reconnect_failed_message) backoff) with 1%nat.
    change (count is_stop_read backoff) with 0%nat.
    change (count is_failed_connect backoff) with 0%nat.
    split; [lia |]. split; [lia |]. split; [lia |]. split; [exact Hr |].
    split.
    + intros He Hn. rewrite Hex; [lia | exact He | lia].
    + intros Hf. destruct Hall as [He Hct]; [lia |].
      split; [exact He | lia].
Qed.

(** C1: a run of [reconnect] ends with success or with the exhaustion
    error, never out of fuel; it calls [connect] at most 5 times and
    increments its counter (once before each back-off message) at most 5
    times; when it raises the exhaustion error the counter has reached
    exactly 5; and after 5 failed [connect] calls it raises that error,
    having made 5 [connect] calls and no more. *)
Theorem reconnect_attempts_bounded (address : list Z) (st : state W) :
  exists tr : list event,
    trace (snd (reconnect address st)) = trace st ++ tr /\
    (count is_connect tr <= 5)%nat /\
    (count (is_log reconnect_failed_message) tr <= 5)%nat /\
    (fst (reconnect address st) = Val tt \/
     fst (reconnect address st) = Exc exhausted) /\
    (fst (reconnect address st) = Exc exhausted ->
     count (is_log reconnect_failed_message) tr = 5%nat) /\
    (count is_failed_connect tr = 5%nat ->
     fst (reconnect address st) = Exc exhausted /\
     count is_connect tr = 5%nat).
Proof.
  destruct (reconnect_shape address st) as (tr & Htr & Hrun).
  exists tr. split; [exact Htr |].
  destruct (run_from_counts 0 tr _ Hrun) as (Hc & Hl & _ & Hr & Hex & Hall).
  change (Z.to_nat (MAX_RECONNECT_ATTEMPTS - 0)) with 5%nat in *.
  repeat split; auto.
  - intros He. apply Hex; [exact He | unfold MAX_RECONNECT_ATTEMPTS; lia].
  - apply Hall. assumption.
  - apply Hall. assumption.
Qed.

(** *** What follows a position in the events of a run *)

Lemma each_suffix_spec (P : list event -> Prop) (pre : list event) :
  forall tr post : list event,
    each_suffix P tr -> tr = pre ++ post -> P post.
Proof.
  induction pre as [| ev pre IH]; intros tr post Hall ->.
  - destruct post; [exact Hall | exact (proj1 Hall)].
  - exact (IH _ post (proj2 Hall) eq_refl).
Qed.

Lemma run_from_head (n : Z) (tr : list event) (r : outcome unit) :
  run_from n tr r -> resumes r tr.
Proof.
  intros [n' Hge | n' Hlt | n' p tr' r' Hlt Hp Hrun].
  - left. split; reflexivity.
  - right. eexists _, _. reflexivity.
  - right. destruct Hp; eexists _, _; reflexivity.
Qed.

Ltac suffixes := cbn [each_suffix app]; repeat match goal with |- _ /\ _ => split end.

Ltac not_here :=
  match goal with
  | |- caught_at _ _ =>
      let H := fresh in intros ? ? H; discriminate H
  end.

Ltac caught_here tr Hhead :=
  match goal with
  | |- caught_at _ _ =>
      let H := fresh in
      intros ? ? H; injection H as <- <-;
      exists tr; split; [reflexivity | exact Hhead]
  end.

Lemma run_from_caught (n : Z) (tr : list event) (r : outcome unit) :
  run_from n tr r -> each_suffix (caught_at r) tr.
Proof.
  induction 1 as [n Hge | n Hlt | n p tr r Hlt Hp Hrun IH].
  - cbn. intros e post' H. discriminate H.
  - unfold success_pass, configured, trying. suffixes; not_here.
  - pose proof (run_from_head _ _ _ Hrun) as Hhead.
    destruct Hp; unfold probe, backoff, error_log, trying, attempting;
      suffixes; try exact IH; try not_here; caught_here tr Hhead.
Qed.

Lemma run_from_success (n : Z) (tr : list event) (r : outcome unit) :
  run_from n tr r -> r = Val tt -> exists pre, tr = pre ++ success_pass.
Proof.
  induction 1 as [n Hge | n Hlt | n p tr r Hlt Hp Hrun IH]; intros Hr.
  - discriminate Hr.
  - exists []. reflexivity.
  - destruct (IH Hr) as (pre & ->).
    exists (p ++ backoff ++ pre). rewrite <- !app_assoc. reflexivity.
Qed.

(** C8: in a run of [reconnect], an exception of a [connect] call never
    leaves the routine (the run ends with success or the exhaustion error);
    the call is followed by the log of the exception and by exactly one
    back-off (the counter's increment, its message and the sleep), after
    which the next pass begins with its [connected()] call, unless the run
    is over because the counter has reached 5. *)
Theorem connect_exception_caught (address : list Z) (st : state W) :
  exists tr : list event,
    trace (snd (reconnect address st)) = trace st ++ tr /\
    (fst (reconnect address st) = Val tt \/
     fst (reconnect address st) = Exc exhausted) /\
    (forall (pre : list event) (e : exception) (post : list event),
        tr = pre ++ EConnect (Throws e) :: post ->
        exists rest : list event,
          post = ELog ("Reconnection error: " +:+ what e)
                   :: ELog reconnect_failed_message
                   :: ESleep RECONNECT_DELAY_MS :: rest /\
          ((rest = [] /\ fst (reconnect address st) = Exc exhausted /\
            count (is_log reconnect_failed_message) tr = 5%nat) \/
           (exists (rep : reply bool) (rest' : list event),
               rest = EConnected rep :: rest'))).
Proof.
  destruct (reconnect_shape address st) as (tr & Htr & Hrun).
  exists tr. split; [exact Htr |].
  destruct (run_from_counts 0 tr _ Hrun) as (_ & _ & _ & Hr & Hex & _).
  split; [exact Hr |].
  intros pre e post Heq.
  pose proof (each_suffix_spec _ pre tr _ (run_from_caught _ _ _ Hrun) Heq)
    as Hc.
  destruct (Hc e post eq_refl) as (rest & -> & Hres).
  exists rest. split; [reflexivity |].
  destruct Hres as [[-> He] | Hnext]; [left | right; exact Hnext].
  split; [reflexivity |]. split; [exact He |].
  apply Hex; [exact He | unfold MAX_RECONNECT_ATTEMPTS; lia].
Qed.

(** C4: when [reconnect] reports success, the last things it did are a
    [connect], then [setSleepMode(NeverSleep)], then
    [setMode(SendEmg, SendData, Disabled)], all three without error; so
    every [connect] of the run comes before that configuration. *)
Theorem configuration_precedes_success (address : list Z) (st : state W) :
  fst (reconnect address st) = Val tt ->
  exists pre : list event,
    trace (snd (reconnect address st))
    = trace st ++ pre ++
      [EConnect (Ok tt);
       ESetSleepMode NeverSleep (Ok tt);
       ESetMode SendEmg SendData Disabled (Ok tt);
       ELog "Reconnection successful!"].
Proof.
  intros Hr.
  destruct (reconnect_shape address st) as (tr & Htr & Hrun).
  destruct (run_from_success _ _ _ Hrun Hr) as (pre & ->).
  exists (pre ++ [EConnected (Ok true); trying]).
  rewrite Htr, <- !app_assoc. reflexivity.
Qed.

(** The routine never reads the stop flag. *)
Lemma reconnect_never_reads_stop (address : list Z) (st : state W) :
  exists tr : list event,
    trace (snd (reconnect address st)) = trace st ++ tr /\
    count is_stop_read tr = 0%nat.
Proof.
  destruct (reconnect_shape address st) as (tr & Htr & Hrun).
  exists tr. split; [exact Htr |].
  apply (run_from_counts 0 tr _ Hrun).
Qed.

(** The pass through the disconnected branch when every call succeeds:
    the loop goes on with the counter incremented, after the back-off. *)
Lemma disconnected_pass_goes_on (fuel : nat) (address : list Z) (n : Z)
      (st : state W) (w1 w2 w3 w4 : W) (c : bool) :
  n < MAX_RECONNECT_ATTEMPTS ->
  client_connected (world st) = (Ok false, w1) ->
  client_connected w1 = (Ok c, w2) ->
  client_disconnect w2 = (Ok tt, w3) ->
  client_connect (Some (address, connection_timeout)) (sleep_for_ms 1000 w3)
  = (Ok tt, w4) ->
  reconnect_loop (S fuel) address n st
  = reconnect_loop fuel address (n + 1)
      (mkState (sleep_for_ms RECONNECT_DELAY_MS w4)
               (trace st ++ probe c ++
                [EDisconnect (Ok tt); ESleep 1000; EConnect (Ok tt)] ++ backoff)
               (files st) (watchdog st)).
Proof.
  intros Hlt H1 H2 H3 H4. cbn [reconnect_loop].
  destruct (Z.ltb_spec n MAX_RECONNECT_ATTEMPTS) as [_ | Hge]; [| lia].
  assert (Hpass : reconnect_pass address st
                  = (Val Next,
                     mkState w4
                             (trace st ++ probe c ++
                              [EDisconnect (Ok tt); ESleep 1000; EConnect (Ok tt)])
                             (files st) (watchdog st))).
  { unfold reconnect_pass, reconnect_try, try_catch, bind, ret, connected,
      connect, disconnect, call, log_message, sleep_for.
    cbn [world emit set_world trace files watchdog].
    rewrite H1. cbn [world emit set_world trace files watchdog].
    rewrite H2. cbn [world emit set_world trace files watchdog].
    rewrite H3. cbn [world emit set_world trace files watchdog].
    rewrite H4. cbn [world emit set_world trace files watchdog].
    f_equal. apply state_eq; cbn [world emit set_world trace files watchdog];
      try reflexivity.
    unfold probe, attempting. rewrite <- !app_assoc. reflexivity. }
  unfold bind at 1. rewrite Hpass.
  unfold bind, log_message, sleep_for. f_equal.
  apply state_eq; cbn [world emit set_world trace files watchdog];
    try reflexivity.
  unfold backoff. rewrite <- !app_assoc. reflexivity.
Qed.

Lemma reconnect_loop_at_maximum (fuel : nat) (address : list Z) (n : Z)
      (st : state W) :
  MAX_RECONNECT_ATTEMPTS <= n ->
  reconnect_loop fuel address n st = (Exc exhausted, st).
Proof.
  intros Hge. destruct fuel; cbn [reconnect_loop];
    (destruct (Z.ltb_spec n MAX_RECONNECT_ATTEMPTS) as [Hlt | _]; [lia |]);
    reflexivity.
Qed.

(** C10: a [connect] that succeeds in the disconnected branch does not end
    the routine: the counter is incremented, the back-off runs and the loop
    goes on; on the fifth pass the routine then raises the exhaustion
    error; and a run that reports success ends with the pass through the
    connected branch, which calls [connect] itself. *)
Theorem connect_success_not_reported (fuel : nat) (address : list Z) (n : Z)
        (st : state W) (w1 w2 w3 w4 : W) (c : bool) :
  n < MAX_RECONNECT_ATTEMPTS ->
  client_connected (world st) = (Ok false, w1) ->
  client_connected w1 = (Ok c, w2) ->
  client_disconnect w2 = (Ok tt, w3) ->
  client_connect (Some (address, connection_timeout)) (sleep_for_ms 1000 w3)
  = (Ok tt, w4) ->
  let st' :=
    mkState (sleep_for_ms RECONNECT_DELAY_MS w4)
            (trace st ++ probe c ++
             [EDisconnect (Ok tt); ESleep 1000; EConnect (Ok tt)] ++ backoff)
            (files st) (watchdog st) in
  reconnect_loop (S fuel) address n st
  = reconnect_loop fuel address (n + 1) st' /\
  (n = MAX_RECONNECT_ATTEMPTS - 1 ->
   reconnect_loop (S fuel) address n st = (Exc exhausted, st')) /\
  (forall st0 : state W,
      fst (reconnect address st0) = Val tt ->
      exists pre : list event,
        trace (snd (reconnect address st0)) = trace st0 ++ pre ++ success_pass).
Proof.
  intros Hlt H1 H2 H3 H4 st'.
  pose proof (disconnected_pass_goes_on fuel address n st w1 w2 w3 w4 c
                Hlt H1 H2 H3 H4) as Hstep.
  split; [exact Hstep |]. split.
  - intros ->. rewrite Hstep. apply reconnect_loop_at_maximum. lia.
  - intros st0 Hr.
    destruct (reconnect_shape address st0) as (tr & Htr & Hrun).
    destruct (run_from_success _ _ _ Hrun Hr) as (pre & ->).
    exists pre. exact Htr.
Qed.

End ReconnectFacts.

(** *** The routine on scripted devices *)

Lemma reconnect_attempts_bounded_witness :
  fst (MyoLinux.reconnect Scenario.address (Sim.start Scenario.unreachable))
  = Exc MyoLinux.exhausted /\
  count is_connect
        (trace (snd (MyoLinux.reconnect Scenario.address
                                        (Sim.start Scenario.unreachable))))
  = 5%nat.
Proof.
  destruct (reconnect_attempts_bounded
              Scenario.address (Sim.start Scenario.unreachable))
    as (tr & Htr & _ & _ & _ & _ & Hall).
  cbn [app Sim.start trace] in Htr. rewrite Htr.
  apply Hall. rewrite <- Htr. vm_compute. reflexivity.
Defined.

Lemma connect_exception_caught_witness :
  exists rest : list event,
    skipn 7 (trace (snd (MyoLinux.reconnect Scenario.address
                                            (Sim.start Scenario.unreachable))))
    = ELog "Reconnection error: link down"
        :: ELog MyoLinux.reconnect_failed_message
        :: ESleep MyoLinux.RECONNECT_DELAY_MS :: rest.
Proof.
  destruct (connect_exception_caught
              Scenario.address (Sim.start Scenario.unreachable))
    as (tr & Htr & _ & Hall).
  cbn [app Sim.start trace] in Htr.
  destruct (Hall (firstn 6 tr) Sim.link_down (skipn 7 tr)) as (rest & Hrest & _).
  - rewrite <- Htr. vm_compute. reflexivity.
  - exists rest. rewrite Htr. exact Hrest.
Defined.

Lemma configuration_precedes_success_witness :
  exists pre : list event,
    trace (snd (MyoLinux.reconnect Scenario.address (Sim.start Scenario.linked)))
    = pre ++
      [EConnect (Ok tt);
       ESetSleepMode NeverSleep (Ok tt);
       ESetMode SendEmg SendData Disabled (Ok tt);
       ELog "Reconnection successful!"].
Proof.
  apply (configuration_precedes_success
           Scenario.address (Sim.start Scenario.linked)).
  vm_compute. reflexivity.
Defined.

Lemma connect_success_not_reported_witness :
  fst (MyoLinux.reconnect_loop 1 Scenario.address 4
         (Sim.start Scenario.first_time))
  = Exc MyoLinux.exhausted.
Proof.
  destruct (connect_success_not_reported
              0 Scenario.address 4 (Sim.start Scenario.first_time)
              _ _ _ _ _ ltac:(reflexivity) eq_refl eq_refl eq_refl eq_refl)
    as (_ & Hfifth & _).
  rewrite Hfifth; reflexivity.
Defined.

(** A [connect] that first succeeds on the fifth pass: the routine raises
    the exhaustion error although the link is up. *)
Example fifth_connect_scenario :
  let run := MyoLinux.reconnect Scenario.address (Sim.start Scenario.fifth_time) in
  fst run = Exc MyoLinux.exhausted /\
  Sim.link (world (snd run)) = true /\
  count is_connect (trace (snd run)) = 5%nat /\
  count is_failed_connect (trace (snd run)) = 4%nat.
Proof. vm_compute. repeat split; reflexivity. Qed.

(** C5 fails on the routine: with the stop flag set before the call and for
    its whole duration, and the device out of reach, [reconnect] still makes
    its five passes, each with a [connect] and both sleeps, and never reads
    the flag; the connection loop of the earlier program, entered in the
    same state, makes none. *)
Theorem reconnect_runs_despite_stop :
  let st := Sim.start Scenario.unreachable_stopped in
  let run := MyoLinux.reconnect Scenario.address st in
  stop (world st) = true /\
  stop (world (snd run)) = true /\
  fst run = Exc MyoLinux.exhausted /\
  count is_connect (trace (snd run)) = 5%nat /\
  count Shape.is_stop_read (trace (snd run)) = 0%nat /\
  Sim.clock_ms (world (snd run)) - Sim.clock_ms (world st) = 55000 /\
  count is_connect (trace (snd (Legacy.connect_loop 5 0 st))) = 0%nat.
Proof. vm_compute. repeat split; reflexivity. Qed.

(** ** The supervisors *)

Section SupervisorFacts.

Context {W Num : Type} `{Env : Environment W Num}.

Lemma reconnect_result (address : list Z) (st : state W) :
  fst (MyoLinux.reconnect address st) = Val tt \/
  fst (MyoLinux.reconnect address st) = Exc MyoLinux.exhausted.
Proof.
  destruct (reconnect_shape address st) as (tr & _ & Hrun).
  apply (run_from_counts 0 tr _ Hrun).
Qed.

Lemma recover_unfold (address : list Z) (e : exception) (st : state W) :
  MyoLinux.recover address e st
  = match MyoLinux.reconnect address (snd (MyoLinux.announce e st)) with
    | (Val _, st') => (Val Next, st')
    | (Exc e', st') =>
        (Val Next, emit (ELog ("Reconnection failed: " +:+ what e')) st')
    | (Fuel, st') => (Fuel, st')
    end.
Proof.
  unfold MyoLinux.recover, MyoLinux.announce, bind, log_message, sleep_for,
    try_catch, ret.
  cbn [fst snd].
  destruct (MyoLinux.reconnect address _) as [[[] | e' |] st']; reflexivity.
Qed.

(** The [catch] block of the current supervisor always hands control
    back to the loop. *)
Lemma recover_returns (address : list Z) (e : exception) (st : state W) :
  fst (MyoLinux.recover address e st) = Val Next.
Proof.
  rewrite recover_unfold.
  destruct (reconnect_result address (snd (MyoLinux.announce e st))) as [Hr | Hr];
    destruct (MyoLinux.reconnect address (snd (MyoLinux.announce e st)))
      as [r st']; cbn [fst] in Hr; subst r; reflexivity.
Qed.

Lemma supervisor_after_error (fuel : nat) (out mac : string)
      (address : list Z) (st st1 : state W) (e : exception) :
  stop (world st) = false ->
  MyoLinux.supervise_try fuel out mac address (emit (EStop false) st)
  = (Exc e, st1) ->
  MyoLinux.supervisor (S fuel) out mac address st
  = MyoLinux.supervisor fuel out mac address
      (snd (MyoLinux.recover address e st1)).
Proof.
  intros Hstop Htry. cbn [MyoLinux.supervisor].
  unfold bind at 1. unfold read_stop at 1. rewrite Hstop.
  unfold bind at 1. unfold try_catch at 1. rewrite Htry.
  pose proof (recover_returns address e st1) as Hrec.
  destruct (MyoLinux.recover address e st1) as [r st2].
  cbn [fst snd] in *. subst r. reflexivity.
Qed.

Lemma legacy_gives_up (fuel : nat) (out : string) (st st1 : state W) (w2 : W) :
  stop (world st) = false ->
  Legacy.connect_loop 5 0 (emit (EStop false) st) = (Val tt, st1) ->
  client_connected (world st1) = (Ok false, w2) ->
  Legacy.supervisor (S fuel) out st
  = (Val 1,
     emit (ELog Legacy.exiting_message)
          (emit (EConnected (Ok false)) (set_world w2 st1))).
Proof.
  intros Hstop Hloop Hconn. cbn [Legacy.supervisor].
  unfold bind at 1. unfold read_stop at 1. rewrite Hstop.
  unfold bind at 1. unfold try_catch at 1.
  unfold Legacy.supervise_try. unfold bind at 1. rewrite Hloop.
  unfold bind at 1. unfold connected, call. rewrite Hconn.
  reflexivity.
Qed.

(** C2, as the code has it.  In the current program the exhaustion error
    of [reconnect] is caught by the supervisor's handler, which logs it and
    always hands control back to the supervisor loop, so the process does
    not end there.  In the earlier program, a connection loop that ends
    without a connection makes [main] log that it is exiting and return
    1. *)
Theorem exhaustion_survived_or_fatal :
  (forall (address : list Z) (e : exception) (st : state W),
      fst (MyoLinux.recover address e st) = Val Next /\
      (fst (MyoLinux.reconnect address (snd (MyoLinux.announce e st)))
       = Exc MyoLinux.exhausted ->
       trace (snd (MyoLinux.recover address e st))
       = trace (snd (MyoLinux.reconnect address (snd (MyoLinux.announce e st))))
         ++ [ELog ("Reconnection failed: " +:+ what MyoLinux.exhausted)])) /\
  (forall (fuel : nat) (out mac : string) (address : list Z)
          (st st1 : state W) (e : exception),
      stop (world st) = false ->
      MyoLinux.supervise_try fuel out mac address (emit (EStop false) st)
      = (Exc e, st1) ->
      MyoLinux.supervisor (S fuel) out mac address st
      = MyoLinux.supervisor fuel out mac address
          (snd (MyoLinux.recover address e st1))) /\
  (forall (fuel : nat) (out : string) (st st1 : state W) (w2 : W),
      stop (world st) = false ->
      Legacy.connect_loop 5 0 (emit (EStop false) st) = (Val tt, st1) ->
      client_connected (world st1) = (Ok false, w2) ->
      fst (Legacy.supervisor (S fuel) out st) = Val 1 /\
      last (trace (snd (Legacy.supervisor (S fuel) out st)))
      = Some (ELog Legacy.exiting_message)).
Proof.
  split; [| split].
  - intros address e st. split; [apply recover_returns |].
    intros Hr. rewrite recover_unfold.
    destruct (MyoLinux.reconnect address (snd (MyoLinux.announce e st))) as [r st'].
    cbn [fst snd] in *. subst r. reflexivity.
  - exact supervisor_after_error.
  - intros fuel out st st1 w2 Hstop Hloop Hconn.
    rewrite (legacy_gives_up fuel out st st1 w2 Hstop Hloop Hconn).
    split; [reflexivity |]. cbn [snd]. rewrite trace_emit.
    apply last_snoc.
Qed.

(** Once the current supervisor reads the stop flag as set, it makes no
    further pass: one [disconnect], whose exception is logged and goes no
    further, and the status is 0. *)
Lemma stop_observed_status_zero (fuel : nat) (out mac : string)
      (address : list Z) (st : state W) :
  stop (world st) = true ->
  exists (r : reply unit) (st' : state W),
    MyoLinux.supervisor fuel out mac address st = (Val 0, st') /\
    trace st'
    = trace st ++
      [EStop true; ELog "Disconnecting..."; EDisconnect r] ++
      match r with
      | Ok _ => []
      | Throws _ => [ELog "Program ended abnormally."]
      end ++ [ELog "Program ended normally."].
Proof.
  intros Hstop.
  assert (Hsup : MyoLinux.supervisor fuel out mac address st
                 = MyoLinux.shutdown (emit (EStop true) st)).
  { destruct fuel; cbn [MyoLinux.supervisor]; unfold bind at 1;
      unfold read_stop at 1; rewrite Hstop; reflexivity. }
  rewrite Hsup.
  unfold MyoLinux.shutdown, bind, log_message, try_catch, disconnect, call, ret.
  cbn [world emit set_world].
  destruct (client_disconnect (world st)) as [[[] | e] w].
  - eexists (Ok tt), _. split; [reflexivity |].
    cbn [trace emit set_world]. rewrite <- !app_assoc. reflexivity.
  - eexists (Throws e), _. split; [reflexivity |].
    cbn [trace emit set_world]. rewrite <- !app_assoc. reflexivity.
Qed.

(** The collection loop reads the stop flag before each pass: with the
    flag set it polls nothing and writes nothing more. *)
Lemma acquisition_stops (fuel : nat) (filename : string)
      (frame : SampleFrame Num) (last_write_time : Z) (st : state W) (w : W) :
  client_connected (world st) = (Ok true, w) ->
  stop w = true ->
  acquisition fuel filename frame last_write_time st
  = (Val tt, emit (EStop true) (emit (EConnected (Ok true)) (set_world w st))).
Proof.
  intros Hconn Hstop.
  destruct fuel; cbn [acquisition]; unfold bind at 1;
    unfold connected, call; rewrite Hconn;
    unfold bind at 1; unfold read_stop at 1;
    cbn [world emit set_world]; rewrite Hstop; reflexivity.
Qed.

End SupervisorFacts.

Lemma exhaustion_survived_or_fatal_witness :
  let st := Sim.start Scenario.unreachable in
  let e := Sim.link_down in
  trace (snd (MyoLinux.recover Scenario.address e st))
  = trace (snd (MyoLinux.reconnect Scenario.address (snd (MyoLinux.announce e st))))
    ++ [ELog "Reconnection failed: Unable to reconnect after 5 attempts."].
Proof.
  apply (proj1 exhaustion_survived_or_fatal Scenario.address Sim.link_down
               (Sim.start Scenario.unreachable)).
  vm_compute. reflexivity.
Defined.

(** C2 as stated fails on the earlier program: with the device out of
    reach, its five connection attempts fail and [main] returns 1; the last
    line it logs announces the exit. *)
Lemma legacy_exhaustion_exits :
  let run := Legacy.main 10 Scenario.legacy_argv (Sim.start Scenario.unreachable) in
  fst run = Val 1 /\
  count is_failed_connect (trace (snd run)) = 5%nat /\
  last (trace (snd run))
  = Some (ELog "Failed to connect to Myo after 5 attempts. Exiting.").
Proof. vm_compute. repeat split; reflexivity. Qed.

(** C7 fails on the earlier program.  Its final [disconnect] is not
    guarded: when the call throws after the stop flag was read, the exception
    leaves [main] and no status is returned, where the current program logs it
    and returns 0.  And when its connection loop is the one to read the flag,
    [main] returns 1 without a final [disconnect]. *)
Theorem legacy_shutdown_unguarded :
  let legacy := Legacy.main 10 Scenario.legacy_argv (Sim.start Scenario.interrupted) in
  let current := MyoLinux.main 10 Scenario.argv (Sim.start Scenario.interrupted) in
  let early :=
    Legacy.main 10 Scenario.legacy_argv (Sim.start Scenario.interrupted_unreachable) in
  fst legacy = Exc Sim.link_down /\
  last_events 2 (trace (snd legacy)) = [EStop true; EDisconnect (Throws Sim.link_down)] /\
  fst current = Val 0 /\
  last_events 4 (trace (snd current))
  = [ELog "Disconnecting..."; EDisconnect (Throws Sim.link_down);
     ELog "Program ended abnormally."; ELog "Program ended normally."] /\
  fst early = Val 1 /\
  last_events 4 (trace (snd early))
  = [EConnected (Ok false); EStop true; EConnected (Ok false);
     ELog "Failed to connect to Myo after 5 attempts. Exiting."].
Proof. vm_compute. repeat split; reflexivity. Qed.

(** ** The CSV output *)

Section TextFacts.

Lemma append_String (a : ascii) (s t : string) :
  String a s +:+ t = String a (s +:+ t).
Proof. reflexivity. Qed.

Lemma append_empty_r (s : string) : s +:+ EmptyString = s.
Proof.
  induction s as [| a s IH]; [reflexivity |].
  rewrite append_String, IH. reflexivity.
Qed.

Lemma append_assoc (s t u : string) : (s +:+ t) +:+ u = s +:+ (t +:+ u).
Proof.
  induction s as [| a s IH]; [reflexivity |].
  rewrite !append_String, IH. reflexivity.
Qed.

Lemma count_char_app (c : ascii) (s t : string) :
  count_char c (s +:+ t) = (count_char c s + count_char c t)%nat.
Proof.
  induction s as [| a s IH]; [reflexivity |].
  rewrite append_String. cbn [count_char]. rewrite IH. lia.
Qed.

Lemma csv_fields_length (s : string) :
  length (csv_fields s) = S (count_char "," s).
Proof.
  induction s as [| a s IH]; [reflexivity |].
  cbn [csv_fields count_char]. destruct (Ascii.eqb a ",").
  - cbn [length]. rewrite IH. reflexivity.
  - destruct (csv_fields s) as [| f fs]; [discriminate IH |].
    cbn [length] in *. lia.
Qed.

(** Decimal digits and the sign are neither commas nor line ends. *)
Lemma count_char_uint (c : ascii) (d : Decimal.uint) :
  c = ","%char \/ c = newline ->
  count_char c (NilEmpty.string_of_uint d) = 0%nat.
Proof.
  intros [-> | ->]; induction d; cbn [NilEmpty.string_of_uint count_char];
    try rewrite IHd; reflexivity.
Qed.

Lemma count_char_to_string (c : ascii) (z : Z) :
  c = ","%char \/ c = newline ->
  count_char c (to_string z) = 0%nat.
Proof.
  intros Hc. unfold to_string, NilZero.string_of_int, NilZero.string_of_uint.
  destruct (Z.to_int z) as [d | d].
  - destruct d; try (apply (count_char_uint c _ Hc));
      destruct Hc as [-> | ->]; reflexivity.
  - cbn [count_char].
    replace (Ascii.eqb "-" c) with false
      by (destruct Hc as [-> | ->]; reflexivity).
    destruct d; try (apply (count_char_uint c _ Hc));
      destruct Hc as [-> | ->]; reflexivity.
Qed.

Lemma emg_text_commas (emg : list Z) :
  count_char "," (emg_text emg) = 8%nat /\
  count_char newline (emg_text emg) = 0%nat.
Proof.
  unfold emg_text. cbn [seq fold_left].
  rewrite !count_char_app.
  rewrite !(count_char_to_string ",") by (left; reflexivity).
  rewrite !(count_char_to_string newline) by (right; reflexivity).
  split; reflexivity.
Qed.

Lemma header_well_formed : well_formed_row csv_header.
Proof.
  exists csv_header_line. split; [reflexivity |].
  split; vm_compute; reflexivity.
Qed.

Lemma text_of_app (r1 r2 : list string) :
  text_of (r1 ++ r2) = text_of r1 +:+ text_of r2.
Proof.
  unfold text_of. induction r1 as [| r r1 IH]; [reflexivity |].
  cbn [app fold_right]. rewrite IH, append_assoc. reflexivity.
Qed.

Lemma append_text_twice (f t1 t2 : string) (fs : gmap string string) :
  append_text f t2 (append_text f t1 fs) = append_text f (t1 +:+ t2) fs.
Proof.
  unfold append_text. rewrite lookup_insert_eq. cbn [from_option id].
  rewrite insert_insert_eq, append_assoc. reflexivity.
Qed.

Lemma append_text_nothing (f : string) (fs : gmap string string) :
  is_Some (fs !! f) -> append_text f EmptyString fs = fs.
Proof.
  intros [c Hc]. unfold append_text. rewrite Hc. cbn [from_option id].
  rewrite append_empty_r. apply insert_id. exact Hc.
Qed.

Lemma append_text_exists (f t : string) (fs : gmap string string) :
  is_Some (append_text f t fs !! f).
Proof. unfold append_text. rewrite lookup_insert_eq. eauto. Qed.

End TextFacts.

Section CsvFacts.

Context {W Num : Type} `{Env : Environment W Num}.

Lemma csv_row_well_formed (timestamp : Z) (f : SampleFrame Num) :
  plain_numbers -> well_formed_row (csv_row timestamp f).
Proof.
  intros Hplain. exists (csv_line timestamp f). split; [reflexivity |].
  rewrite csv_fields_length. unfold csv_line.
  rewrite !count_char_app.
  rewrite (count_char_to_string ",") by (left; reflexivity).
  rewrite (count_char_to_string newline) by (right; reflexivity).
  destruct (emg_text_commas (emg_data f)) as [-> ->].
  rewrite !(proj1 (Hplain _)), !(proj2 (Hplain _)).
  split; reflexivity.
Qed.

(** *** Computations that leave the files alone, or add rows *)

Lemma appends_keep {A : Type} (filename : string) (m : M W A) :
  (forall st, files (snd (m st)) = files st) -> appends_rows filename m.
Proof.
  intros Hkeep st Hfile. exists []. split; [constructor |].
  rewrite Hkeep. symmetry. apply append_text_nothing. exact Hfile.
Qed.

Lemma appends_bind {A B : Type} (filename : string) (m : M W A)
      (k : A -> M W B) :
  appends_rows filename m ->
  (forall a, appends_rows filename (k a)) ->
  appends_rows filename (bind m k).
Proof.
  intros Hm Hk st Hfile. unfold bind.
  destruct (Hm st Hfile) as (rows1 & Hwf1 & Hfiles1).
  destruct (m st) as [[a | e |] st1]; cbn [snd] in *;
    try (exists rows1; split; assumption).
  destruct (Hk a st1) as (rows2 & Hwf2 & Hfiles2).
  { rewrite Hfiles1. apply append_text_exists. }
  exists (rows1 ++ rows2). split; [apply Forall_app; split; assumption |].
  rewrite Hfiles2, Hfiles1, append_text_twice, text_of_app. reflexivity.
Qed.

Lemma appends_write (filename : string) (timestamp : Z)
      (f : SampleFrame Num) :
  appends_rows filename (write filename (csv_row timestamp f)).
Proof.
  intros st _. exists [csv_row timestamp f].
  split; [repeat constructor; exists timestamp, f; reflexivity |].
  cbn. rewrite append_empty_r. reflexivity.
Qed.

Lemma call_keeps {A : Type} (op : W -> reply A * W) (ev : reply A -> event)
      (st : state W) :
  files (snd (call op ev st)) = files st.
Proof. unfold call. destruct (op (world st)) as [[a | e] w]; reflexivity. Qed.

Lemma read_keeps {A : Type} (op : W -> A * W) (st : state W) :
  files (snd (read op st)) = files st.
Proof. unfold read. destruct (op (world st)) as [a w]. reflexivity. Qed.

Lemma watchdog_update_keeps (st : state W) :
  files (snd (watchdog_update st)) = files st.
Proof.
  unfold watchdog_update. destruct (steady_now (world st)) as [a w].
  reflexivity.
Qed.

Lemma watchdog_is_timeout_keeps (st : state W) :
  files (snd (watchdog_is_timeout st)) = files st.
Proof.
  unfold watchdog_is_timeout. destruct (steady_now (world st)) as [a w].
  reflexivity.
Qed.

Ltac keeps :=
  apply appends_keep; intros ?;
  first [ apply call_keeps | apply read_keeps | apply watchdog_update_keeps
        | apply watchdog_is_timeout_keeps | reflexivity ].

(** The collection loop only adds data rows to its file. *)
Lemma acquisition_appends (fuel : nat) :
  forall (filename : string) (frame : SampleFrame Num) (last_write_time : Z),
    appends_rows filename (acquisition fuel filename frame last_write_time).
Proof.
  induction fuel as [| fuel IH]; intros filename frame last_write_time;
    cbn [acquisition].
  - apply appends_bind; [unfold connected; keeps | intros c].
    destruct c; [| keeps].
    apply appends_bind; [keeps | intros s]. destruct s; keeps.
  - apply appends_bind; [unfold connected; keeps | intros c].
    destruct c; [| keeps].
    apply appends_bind; [keeps | intros s]. destruct s; [keeps |].
    apply appends_bind; [unfold listen; keeps | intros ds].
    apply appends_bind; [keeps | intros _].
    apply appends_bind; [keeps | intros current_time].
    apply appends_bind.
    + destruct (_ >=? 10); [| keeps].
      apply appends_bind; [keeps | intros timestamp].
      apply appends_bind; [| intros _; keeps].
      apply appends_write.
    + intros last_write_time'.
      apply appends_bind; [keeps | intros timed_out].
      destruct timed_out; [keeps |].
      apply appends_bind; [keeps | intros _]. apply IH.
Qed.

Lemma collect_appends (fuel : nat) (filename : string) :
  appends_rows filename (collect fuel filename).
Proof.
  unfold collect.
  apply appends_bind; [unfold setSleepMode; keeps | intros _].
  apply appends_bind; [unfold setMode; keeps | intros _].
  apply appends_bind; [keeps | intros frame].
  apply appends_bind; [unfold onEmg; keeps | intros _].
  apply appends_bind; [unfold onImu; keeps | intros _].
  apply appends_bind; [keeps | intros last_write_time].
  apply appends_bind; [keeps | intros _].
  apply appends_bind; [apply acquisition_appends | intros _].
  apply appends_bind; [keeps | intros _].
  apply appends_bind; [unfold connected; keeps | intros c].
  apply appends_bind; [destruct c; keeps | intros _]. keeps.
Qed.

Lemma episode_unfold (fuel : nat) (filename open_error : string)
      (st : state W) :
  episode fuel filename open_error st
  = match ofstream_is_open filename (world st) with
    | (true, w) =>
        collect fuel filename
          (mkState w (trace st ++ [EFile filename true])
                   (append_text filename csv_header
                      (append_text filename EmptyString (files st)))
                   (watchdog st))
    | (false, w) =>
        (Val (Return 1),
         mkState w
                 (trace st ++ [EFile filename false] ++
                  [ELog (open_error +:+ filename)])
                 (files st) (watchdog st))
    end.
Proof.
  unfold episode, bind, open_append, write, log_message, ret.
  destruct (ofstream_is_open filename (world st)) as [[] w]; cbn [negb snd].
  - reflexivity.
  - f_equal. apply state_eq; cbn [world trace files watchdog emit set_world];
      try reflexivity.
    rewrite <- app_assoc. reflexivity.
Qed.

(** The decimal text of an integer starts with a digit or the sign. *)
Lemma to_string_head (z : Z) (r : string) : to_string z <> String "T" r.
Proof.
  unfold to_string, NilZero.string_of_int, NilZero.string_of_uint.
  destruct (Z.to_int z) as [d | d]; [| discriminate].
  destruct d; discriminate.
Qed.

(** A data row is never the header row: it starts with the timestamp. *)
Lemma csv_row_not_header (timestamp : Z) (f : SampleFrame Num) :
  csv_row timestamp f <> csv_header.
Proof.
  assert (Hrow : exists rest,
             csv_row timestamp f = to_string timestamp +:+ String "," rest).
  { unfold csv_row, csv_line. rewrite !append_assoc. eexists. reflexivity. }
  destruct Hrow as [rest ->].
  assert (Hhead : exists tail, csv_header = String "T" tail)
    by (eexists; reflexivity).
  destruct Hhead as [tail ->].
  pose proof (to_string_head timestamp) as Hts.
  destruct (to_string timestamp) as [| c r]; [discriminate |].
  rewrite append_String. intros [= -> _]. exact (Hts r eq_refl).
Qed.

(** What an episode whose file opens adds to the end of that file, after
    what the file already held: the header row, then data rows only. *)
Lemma episode_appends (fuel : nat) (filename open_error : string)
      (st : state W) :
  fst (ofstream_is_open filename (world st)) = true ->
  exists rows : list string,
    Forall data_row rows /\
    files (snd (episode fuel filename open_error st))
    = append_text filename (csv_header +:+ text_of rows) (files st).
Proof.
  intros Hopen. rewrite episode_unfold.
  destruct (ofstream_is_open filename (world st)) as [[] w];
    [| discriminate Hopen].
  match goal with
  | |- context [collect fuel filename ?s] => set (st2 := s)
  end.
  destruct (collect_appends fuel filename st2) as (rows & Hdata & Hfiles).
  { apply append_text_exists. }
  exists rows. split; [exact Hdata |].
  rewrite Hfiles. subst st2. cbn [files].
  rewrite !append_text_twice. reflexivity.
Qed.

(** An episode whose file is absent or empty when the episode opens it
    leaves in it the header row (19 fields) followed by data rows only, each
    of them the row of some timestamp and frame, well formed (19 fields) and
    different from the header row; no other file changes.  An episode whose
    file does not open writes nothing and makes [main] return 1. *)
Theorem fresh_episode_output (fuel : nat) (filename open_error : string)
        (st : state W) :
  plain_numbers ->
  files st !! filename = None \/ files st !! filename = Some EmptyString ->
  length (csv_fields csv_header_line) = 19%nat /\
  if fst (ofstream_is_open filename (world st)) then
    exists rows : list string,
      Forall (fun row =>
                data_row row /\ well_formed_row row /\ row <> csv_header)
             rows /\
      files (snd (episode fuel filename open_error st))
      = <[filename := csv_header +:+ text_of rows]> (files st)
  else
    fst (episode fuel filename open_error st) = Val (Return 1) /\
    files (snd (episode fuel filename open_error st)) = files st.
Proof.
  intros Hplain Hfresh. split; [reflexivity |].
  destruct (fst (ofstream_is_open filename (world st))) eqn:Hopen.
  - destruct (episode_appends fuel filename open_error st Hopen)
      as (rows & Hdata & Hfiles).
    exists rows. split.
    + eapply Forall_impl; [exact Hdata |].
      intros row (timestamp & f & ->).
      split; [exists timestamp, f; reflexivity |].
      split; [apply csv_row_well_formed, Hplain | apply csv_row_not_header].
    + rewrite Hfiles. unfold append_text.
      destruct Hfresh as [-> | ->]; reflexivity.
  - rewrite episode_unfold.
    destruct (ofstream_is_open filename (world st)) as [[] w];
      [discriminate Hopen |].
    split; reflexivity.
Qed.

End CsvFacts.

Lemma sim_plain_numbers : plain_numbers (Env := Sim.env).
Proof.
  intros x. split; apply count_char_to_string; [left | right]; reflexivity.
Qed.

Lemma fresh_episode_output_witness :
  let st := Sim.start Scenario.linked in
  let name := ("out/a.csv")%string in
  length (csv_fields csv_header_line) = 19%nat /\
  exists rows : list string,
    Forall (fun row =>
              data_row row /\ well_formed_row row /\ row <> csv_header)
           rows /\
    files (snd (episode 3 name "Error: " st))
    = <[name := csv_header +:+ text_of rows]> (files st).
Proof.
  exact (fresh_episode_output 3 "out/a.csv" "Error: "
           (Sim.start Scenario.linked) sim_plain_numbers
           (or_introl eq_refl)).
Defined.

(** C9 fails in the code: the name of the file, which the code means to
    be unique for each episode, has the resolution of one second; the file
    is opened for appending and each episode writes the header.  With the
    link dropping right after each of two connections made within one
    second, the run ends with status 0 after two episodes have opened the
    same file, and that file holds two header rows. *)
Lemma same_second_two_headers :
  let run := MyoLinux.main 10 Scenario.argv (Sim.start Scenario.flapping) in
  fst run = Val 0 /\
  count (fun ev => match ev with EFile _ true => true | _ => false end)
        (trace (snd run)) = 2%nat /\
  files (snd run) !! ("out/myo_data_88:af_20231114_221320.csv")%string
  = Some (csv_header +:+ csv_header).
Proof. vm_compute. repeat split; reflexivity. Qed.


(** ** The connection loop of the earlier program *)

Section LegacyFacts.

Context {W Num : Type} `{Env : Environment W Num}.

Import Legacy LegacyShape.

Lemma connect_pass_shape (st : state W) :
  exists p : list event,
    trace (snd (connect_pass st))
    = trace st ++ [ELog "Attempting to connect to Myo..."] ++ p /\
    ((fst (connect_pass st) = Val Break /\
      p = [EConnect (Ok tt); EConnected (Ok true);
           ELog "Successfully connected to Myo!"]) \/
     (fst (connect_pass st) = Val Next /\ failed_pass p)).
Proof.
  unfold connect_pass, connect_try, try_catch, bind, ret, connected, connect,
    call, log_message.
  cbn [world emit set_world].
  destruct (client_connect None (world st)) as [[[] | e] w1];
    cbn [world emit set_world].
  - destruct (client_connected w1) as [[[] | e] w2];
      cbn [fst snd trace emit set_world]; eexists;
      (split; [rewrite <- !app_assoc; reflexivity |]).
    + left. split; reflexivity.
    + right. split; [reflexivity | apply fp_no_link].
    + right. split; [reflexivity | apply fp_connected].
  - cbn [fst snd trace emit set_world]. eexists.
    split; [rewrite <- !app_assoc; reflexivity |].
    right. split; [reflexivity | apply fp_connect].
Qed.

Lemma connect_loop_shape (fuel : nat) :
  forall (n : Z) (st st' : state W) (r : outcome unit),
    (Z.to_nat (MAX_RECONNECT_ATTEMPTS - n) <= fuel)%nat ->
    connect_loop fuel n st = (r, st') ->
    exists tr : list event, trace st' = trace st ++ tr /\ run_from n tr r.
Proof.
  induction fuel as [| fuel IH]; intros n st st' r Hfuel Hrun;
    cbn [connect_loop] in Hrun; unfold bind at 1 in Hrun;
    unfold connected at 1, call in Hrun;
    destruct (client_connected (world st)) as [[[] | e] w1];
    cbn [negb andb] in Hrun.
  - injection Hrun as <- <-. eexists. split; [reflexivity | apply run_linked].
  - destruct (Z.ltb_spec n MAX_RECONNECT_ATTEMPTS) as [Hlt | Hge]; [lia |].
    injection Hrun as <- <-. eexists. split; [reflexivity |].
    apply run_exhausted. exact Hge.
  - injection Hrun as <- <-. eexists.
    split; [reflexivity | apply run_condition_throws].
  - injection Hrun as <- <-. eexists. split; [reflexivity | apply run_linked].
  - destruct (Z.ltb_spec n MAX_RECONNECT_ATTEMPTS) as [Hlt | Hge].
    + unfold bind at 1 in Hrun. unfold read_stop at 1 in Hrun.
      cbn [world emit set_world] in Hrun.
      destruct (stop w1).
      * injection Hrun as <- <-. eexists.
        split; [cbn [trace emit set_world]; rewrite <- app_assoc; reflexivity |].
        apply run_stopped. exact Hlt.
      * unfold bind at 1 in Hrun.
        match type of Hrun with
        | context [connect_pass ?s] =>
            destruct (connect_pass_shape s) as (p & Htr & Hp);
            destruct (connect_pass s) as [r1 st1]
        end.
        cbn [fst snd trace emit set_world] in *.
        destruct Hp as [[-> ->] | [-> Hp]].
        -- injection Hrun as <- <-. eexists.
           split; [rewrite Htr, <- !app_assoc; reflexivity |].
           apply run_break. exact Hlt.
        -- unfold bind, log_message, sleep_for in Hrun.
           apply IH in Hrun as (tr & Htr' & Hrun); [| lia].
           exists (entered ++ p ++ backoff ++ tr). split.
           ++ rewrite Htr'. cbn [trace emit set_world].
              rewrite Htr, <- !app_assoc. reflexivity.
           ++ apply run_retry; assumption.
    + injection Hrun as <- <-. eexists. split; [reflexivity |].
      apply run_exhausted. exact Hge.
  - injection Hrun as <- <-. eexists.
    split; [reflexivity | apply run_condition_throws].
Qed.

Lemma legacy_run_counts (n : Z) (tr : list event) (r : outcome unit) :
  run_from n tr r ->
  (count is_connect tr <= Z.to_nat (MAX_RECONNECT_ATTEMPTS - n))%nat /\
  r <> Fuel.
Proof.
  induction 1 as [n e | n | n Hge | n Hlt | n Hlt | n p tr r Hlt Hp Hrun IH];
    try (split; [cbn; lia | discriminate]).
  destruct IH as [Hc Hr]. split; [| exact Hr].
    rewrite !count_app.
    change (count is_connect entered) with 0%nat.
    change (count is_connect backoff) with 0%nat.
    assert (count is_connect p = 1%nat) by (destruct Hp; reflexivity).
    lia.
Qed.

(** The connection loop of the earlier program calls [connect] at most 5
    times, and 5 passes are all it can make. *)
Lemma legacy_connect_loop_bounded (st : state W) :
  exists tr : list event,
    trace (snd (connect_loop 5 0 st)) = trace st ++ tr /\
    (count is_connect tr <= 5)%nat /\
    fst (connect_loop 5 0 st) <> Fuel.
Proof.
  destruct (connect_loop 5 0 st) as [r st'] eqn:Hrun.
  destruct (connect_loop_shape 5 0 st st' r) as (tr & Htr & Hshape);
    [vm_compute; lia | exact Hrun |].
  exists tr. split; [exact Htr |].
  exact (legacy_run_counts 0 tr r Hshape).
Qed.

Lemma legacy_run_head (n : Z) (tr : list event) (r : outcome unit) :
  run_from n tr r ->
  exists (rep : reply bool) (rest : list event), tr = EConnected rep :: rest.
Proof. intros []; eexists _, _; reflexivity. Qed.

Lemma legacy_run_caught (n : Z) (tr : list event) (r : outcome unit) :
  run_from n tr r -> each_suffix caught_at tr.
Proof.
  induction 1 as [n e | n | n Hge | n Hlt | n Hlt | n p tr r Hlt Hp Hrun IH];
    try (cbn [each_suffix app entered];
         repeat match goal with |- _ /\ _ => split end;
         intros ? ? [=]).
  destruct (legacy_run_head _ _ _ Hrun) as (rep & rest & Hhead).
  destruct Hp; unfold entered, backoff, error_log;
    cbn [each_suffix app];
    repeat match goal with |- _ /\ _ => split end;
    try exact IH;
    try (intros ? ? [=]; fail).
  intros e' post' H. injection H as <- <-.
  exists rep, rest. rewrite Hhead. reflexivity.
Qed.

(** In the connection loop of the earlier program too, an exception of
    [connect] is caught and logged, followed by one back-off, and the loop
    goes on to evaluate its condition again. *)
Lemma legacy_connect_exception_caught (st : state W) :
  exists tr : list event,
    trace (snd (connect_loop 5 0 st)) = trace st ++ tr /\
    (forall (pre : list event) (e : exception) (post : list event),
        tr = pre ++ EConnect (Throws e) :: post ->
        exists (rep : reply bool) (rest : list event),
          post = ELog ("Connection error: " +:+ what e)
                   :: ELog connect_failed_message
                   :: ESleep RECONNECT_DELAY_MS
                   :: EConnected rep :: rest).
Proof.
  destruct (connect_loop 5 0 st) as [r st'] eqn:Hrun.
  destruct (connect_loop_shape 5 0 st st' r) as (tr & Htr & Hshape);
    [vm_compute; lia | exact Hrun |].
  exists tr. split; [exact Htr |].
  intros pre e post Heq.
  exact (each_suffix_spec _ pre tr _ (legacy_run_caught _ _ _ Hshape) Heq
                          e post eq_refl).
Qed.

End LegacyFacts.


(** A steady run of the current program: one file, with the header and the
    row written once ten milliseconds have passed. *)
Example steady_run_output :
  let run := MyoLinux.main 40 Scenario.argv (Sim.start Scenario.steady) in
  fst run = Val 0 /\
  files (snd run) !! ("out/myo_data_88:af_20231114_221320.csv")%string
  = Some (csv_header +:+
          "1700000000010,11,12,13,14,15,16,17,18,16384,-10,0,10,10,0,2048,0,-10,1"
          +:+ endl).
Proof. vm_compute. split; reflexivity. Qed.


(** * Further properties of the code *)

(** ** The parser: shape of the result, what it does not read *)

Section ParseMore.

Import ParseMac.

Lemma parse_from_bytes (n : nat) :
  forall (i : nat) (s : string) (address a : list Z),
    length address = 6%nat ->
    (i + n = 6)%nat ->
    Forall is_byte (take i address) ->
    parse_from n i s address = Val a ->
    length a = 6%nat /\ Forall is_byte a.
Proof.
  induction n as [| n IH]; intros i s address a Hlen Hin Hpre Hrun.
  - cbn in Hrun. injection Hrun as <-.
    split; [exact Hlen |].
    rewrite <- (take_ge address i) by lia. exact Hpre.
  - cbn [parse_from] in Hrun.
    destruct (getline s ":") as [[octet rest] |]; [| discriminate Hrun].
    destruct (stoi16 octet) as [v | e |]; try discriminate Hrun.
    apply IH in Hrun; [exact Hrun | rewrite length_insert; exact Hlen | lia |].
    rewrite (take_S_r _ _ (to_uchar v))
      by (apply list_lookup_insert_eq; lia).
    rewrite take_insert_ge by lia.
    apply Forall_app. split; [exact Hpre |].
    repeat constructor; unfold to_uchar;
      pose proof (Z.mod_pos_bound v 256); lia.
Qed.

(** Whatever the text, a successful parse gives six values, each one a
    byte. *)
Theorem parse_gives_six_bytes (s : string) (a : list Z) :
  parse_mac_address s = Val a ->
  length a = 6%nat /\ Forall (fun b => 0 <= b < 256) a.
Proof.
  intros Hrun.
  apply (parse_from_bytes 6 0 s (replicate 6 0) a);
    [reflexivity | reflexivity | constructor | exact Hrun].
Qed.

Lemma parse_gives_six_bytes_witness :
  length [200; 47; 132; 229; 136; 175] = 6%nat /\
  Forall (fun b => 0 <= b < 256) [200; 47; 132; 229; 136; 175].
Proof.
  apply (parse_gives_six_bytes "c8:2f:84:e5:88:af"). reflexivity.
Defined.

Lemma take_field_more (s t : string) :
  take_field ":" (s +:+ String ":" t)
  = if (count_char ":" s =? 0)%nat then (s, t)
    else (fst (take_field ":" s), snd (take_field ":" s) +:+ String ":" t).
Proof.
  induction s as [| c s IH].
  - reflexivity.
  - rewrite append_String. cbn [take_field count_char].
    destruct (Ascii.eqb c ":") eqn:Hc.
    + reflexivity.
    + rewrite IH. cbn [Nat.add].
      destruct (count_char ":" s =? 0)%nat.
      * reflexivity.
      * destruct (take_field ":" s) as [f r]. reflexivity.
Qed.

Lemma take_field_no_colon (s : string) :
  count_char ":" s = 0%nat -> take_field ":" s = (s, EmptyString).
Proof.
  induction s as [| c s IH]; [reflexivity |].
  cbn [take_field count_char]. destruct (Ascii.eqb c ":"); [discriminate |].
  intros H. rewrite IH by exact H. reflexivity.
Qed.

Lemma parse_from_more (n : nat) :
  forall (i : nat) (s t : string) (address a : list Z),
    parse_from n i s address = Val a ->
    parse_from n i (s +:+ String ":" t) address = Val a.
Proof.
  induction n as [| n IH]; intros i s t address a Hrun; [exact Hrun |].
  cbn [parse_from] in *.
  destruct s as [| c s]; [discriminate Hrun |].
  unfold getline in Hrun.
  assert (Hget : getline (String c s +:+ String ":" t) ":"
                 = Some (take_field ":" (String c s +:+ String ":" t)))
    by reflexivity.
  rewrite Hget, take_field_more.
  destruct (count_char ":" (String c s) =? 0)%nat eqn:Hcolon.
  - apply Nat.eqb_eq in Hcolon.
    rewrite (take_field_no_colon _ Hcolon) in Hrun.
    destruct (stoi16 (String c s)) as [v | e |]; try discriminate Hrun.
    destruct n as [| n]; [exact Hrun | discriminate Hrun].
  - destruct (take_field ":" (String c s)) as [octet rest]. cbn [fst snd].
    destruct (stoi16 octet) as [v | e |]; try discriminate Hrun.
    apply IH. exact Hrun.
Qed.

(** The parser never looks past the sixth group: whatever follows an
    accepted address after one more colon changes nothing. *)
Theorem parse_ignores_further_groups (s t : string) (a : list Z) :
  parse_mac_address s = Val a ->
  parse_mac_address (s +:+ ":" +:+ t) = Val a.
Proof. intros Hrun. apply (parse_from_more 6 0 s t). exact Hrun. Qed.

Lemma parse_ignores_further_groups_witness :
  parse_mac_address ("c8:2f:84:e5:88:af" +:+ ":" +:+ "not:an:address")
  = Val [200; 47; 132; 229; 136; 175].
Proof.
  apply (parse_ignores_further_groups "c8:2f:84:e5:88:af" "not:an:address").
  reflexivity.
Defined.

Lemma take_field_length (s : string) :
  (String.length (fst (take_field ":" s)) + String.length (snd (take_field ":" s))
   <= String.length s)%nat /\
  (snd (take_field ":" s) <> EmptyString ->
   String.length (fst (take_field ":" s)) + 1
   + String.length (snd (take_field ":" s)) <= String.length s)%nat.
Proof.
  induction s as [| c s IH]; [cbn; split; [lia | congruence] |].
  cbn [take_field]. destruct (Ascii.eqb c ":").
  - cbn. split; lia.
  - destruct (take_field ":" s) as [f r]. cbn [fst snd String.length] in *.
    destruct IH as [IH1 IH2]. split; [lia |].
    intros Hr. specialize (IH2 Hr). lia.
Qed.

Lemma parse_from_step (n i : nat) (s : string) (address : list Z) :
  parse_from (S n) i s address
  = match getline s ":" with
    | None => Exc (runtime_error "Invalid MAC address format")
    | Some (octet, ss') =>
        match stoi16 octet with
        | Val v => parse_from n (S i) ss' (<[i := to_uchar v]> address)
        | Exc e => Exc e
        | Fuel => Fuel
        end
    end.
Proof. reflexivity. Qed.

Lemma parse_from_length (n : nat) :
  forall (i : nat) (s : string) (address a : list Z),
    parse_from (S n) i s address = Val a ->
    (2 * n + 1 <= String.length s)%nat.
Proof.
  induction n as [| n IH]; intros i s address a Hrun;
    rewrite parse_from_step in Hrun;
    (destruct s as [| c s]; [discriminate Hrun |]);
    unfold getline in Hrun;
    pose proof (take_field_length (String c s)) as [Hl1 Hl2];
    destruct (take_field ":" (String c s)) as [octet rest];
    cbn [fst snd] in *;
    (destruct octet as [| o octet]; [discriminate Hrun |]);
    (destruct (stoi16 (String o octet)) as [v | e |]; try discriminate Hrun).
  - cbn [String.length]. lia.
  - destruct rest as [| r rest]; [discriminate Hrun |].
    apply IH in Hrun.
    assert (Hne : String r rest <> EmptyString) by discriminate.
    specialize (Hl2 Hne). cbn [String.length] in *. lia.
Qed.

(** An address that [main] accepted has at least 11 characters, so the
    [substr] that takes its last five characters for the file name never
    throws after a successful parse. *)
Theorem suffix_after_parse {W : Type} (s : string) (a : list Z) (st : state W) :
  parse_mac_address s = Val a ->
  (11 <= String.length s)%nat /\
  MyoLinux.last5 s st
  = (Val (String.substring (String.length s - 5) 5 s), st).
Proof.
  intros Hrun. apply (parse_from_length 5) in Hrun.
  split; [lia |]. unfold MyoLinux.last5.
  destruct (Nat.ltb_spec (String.length s) 5); [lia | reflexivity].
Qed.

End ParseMore.

Lemma suffix_after_parse_witness :
  (11 <= String.length "c8:2f:84:e5:88:af")%nat /\
  MyoLinux.last5 "c8:2f:84:e5:88:af" (Sim.start Scenario.unreachable)
  = (Val (String.substring (String.length "c8:2f:84:e5:88:af" - 5) 5
                           "c8:2f:84:e5:88:af"),
     Sim.start Scenario.unreachable).
Proof.
  apply (suffix_after_parse "c8:2f:84:e5:88:af" Scenario.address).
  reflexivity.
Defined.

(** ** The parser: what it accepts, exactly *)

Section ParseExact.

Import ParseMac Address Reading.

Ltac each_char c := destruct c as [[] [] [] [] [] [] [] []].

Lemma skip_space_after (s : string) : skip_space s = after isspace s.
Proof.
  induction s as [| c s IH]; [reflexivity |].
  cbn [skip_space after]. rewrite IH. reflexivity.
Qed.

Lemma hex_run_leading (s : string) :
  forall (acc : Z) (any : bool),
    hex_run s acc any
    = (acc * 16 ^ Z.of_nat (String.length (leading is_hex s))
       + hex_number (leading is_hex s),
       any || negb (String.eqb (leading is_hex s) EmptyString)).
Proof.
  induction s as [| c s IH]; intros acc any; cbn [hex_run leading].
  - cbn. rewrite orb_false_r. f_equal. lia.
  - destruct (hex_digit c) as [d |] eqn:Hd.
    + replace (is_hex c) with true by (unfold is_hex; rewrite Hd; reflexivity).
      rewrite IH. cbn [String.length hex_number String.eqb negb].
      rewrite !orb_true_r. f_equal.
      unfold hex_value. rewrite Hd. cbn [from_option id].
      rewrite Nat2Z.inj_succ, Z.pow_succ_r by lia. ring.
    + replace (is_hex c) with false by (unfold is_hex; rewrite Hd; reflexivity).
      cbn. rewrite orb_false_r. f_equal. lia.
Qed.

Lemma sign_split (s1 : string) :
  match s1 with
  | String "-"%char r => (true, r)
  | String "+"%char r => (false, r)
  | _ => (false, s1)
  end = (negative s1, unsigned s1).
Proof. destruct s1 as [| c r]; [reflexivity |]. each_char c; reflexivity. Qed.

Lemma prefix_split (s2 : string) :
  match s2 with
  | String "0"%char (String x (String h r)) =>
      if (Ascii.eqb x "x"%char || Ascii.eqb x "X"%char) && is_hex h
      then String h r else s2
  | _ => s2
  end = without_prefix s2.
Proof.
  destruct s2 as [| z [| x [| h r]]]; try reflexivity;
    each_char z; reflexivity.
Qed.

(** [strtol] in base 16 reads the number of the group. *)
Lemma strtol16_number (g : string) : strtol16 g = number g.
Proof.
  unfold strtol16, number, digits.
  rewrite skip_space_after, sign_split, prefix_split, hex_run_leading.
  cbn [orb].
  destruct (leading is_hex (without_prefix (unsigned (after isspace g))))
    as [| c ds]; [reflexivity |].
  cbn [String.eqb negb]. rewrite Z.mul_0_l, Z.add_0_l. reflexivity.
Qed.

Lemma stoi16_byte (g : string) :
  match byte_of g with
  | Some b => exists v, stoi16 g = Val v /\ to_uchar v = b
  | None => exists e, stoi16 g = Exc e
  end.
Proof.
  unfold byte_of, stoi16, fits_int. rewrite strtol16_number.
  destruct (number g) as [v |]; [| eauto].
  destruct (Z.leb_spec INT_MIN v), (Z.leb_spec v INT_MAX),
    (Z.ltb_spec v INT_MIN), (Z.ltb_spec INT_MAX v);
    cbn [andb orb]; try lia; eauto.
Qed.

Lemma first_bytes_nil (n : nat) :
  first_bytes n [] = match n with O => Some [] | S _ => None end.
Proof. destruct n; reflexivity. Qed.

Lemma first_bytes_zero (gs : list string) : first_bytes 0 gs = Some [].
Proof. unfold first_bytes. rewrite take_0. reflexivity. Qed.

Lemma first_bytes_cons (n : nat) (g : string) (gs : list string) :
  first_bytes (S n) (g :: gs)
  = match byte_of g with
    | Some b => cons b <$> first_bytes n gs
    | None => None
    end.
Proof.
  unfold first_bytes. cbn [take length Nat.eqb].
  destruct (length (take n gs) =? n)%nat; cbn [mapM];
    destruct (byte_of g) as [b |]; reflexivity.
Qed.

(** The loop, compared with the reading of the groups. *)
Lemma parse_from_first_bytes (n : nat) :
  forall (s : string) (i : nat) (address : list Z),
    (i + n <= length address)%nat ->
    match first_bytes n (groups s) with
    | Some bs =>
        parse_from n i s address
        = Val (take i address ++ bs ++ drop (i + n) address)
    | None => exists e, parse_from n i s address = Exc e
    end.
Proof.
  induction n as [| n IH]; intros s i address Hlen.
  - rewrite first_bytes_zero. cbn [parse_from app].
    rewrite Nat.add_0_r, take_drop. reflexivity.
  - cbn [parse_from]. destruct s as [| a s].
    { cbn [groups getline]. rewrite first_bytes_cons.
      cbn. eauto. }
    unfold getline.
    destruct (groups_take_field (String a s)) as (gs & Hg & Hrest).
    destruct (take_field ":" (String a s)) as [g rest]. cbn [fst snd] in *.
    rewrite Hg, first_bytes_cons.
    pose proof (stoi16_byte g) as Hbyte.
    destruct (byte_of g) as [b |].
    + destruct Hbyte as (v & -> & <-).
      assert (Hfront : forall bs : list Z,
                 take (S i) (<[i := to_uchar v]> address) ++ bs
                 = take i address ++ to_uchar v :: bs).
      { intros bs.
        rewrite (take_S_r _ _ (to_uchar v))
          by (apply list_lookup_insert_eq; lia).
        rewrite take_insert_ge by lia.
        rewrite <- app_assoc. reflexivity. }
      destruct Hrest as [[-> ->] | ->].
      * rewrite first_bytes_nil. destruct n as [| n]; cbn [fmap option_fmap option_map].
        -- cbn [parse_from].
           rewrite <- (take_drop (S i) (<[i := to_uchar v]> address)) at 1.
           rewrite Hfront. rewrite drop_insert_lt by lia.
           replace (i + 1)%nat with (S i) by lia. reflexivity.
        -- cbn. eauto.
      * specialize (IH rest (S i) (<[i := to_uchar v]> address)).
        rewrite length_insert in IH. specialize (IH ltac:(lia)).
        destruct (first_bytes n (groups rest)) as [bs |];
          cbn [fmap option_fmap option_map].
        -- rewrite IH, Hfront. rewrite drop_insert_lt by lia.
           replace (S i + n)%nat with (i + S n)%nat by lia. reflexivity.
        -- exact IH.
    + destruct Hbyte as (e & ->). eauto.
Qed.

(** [parse_mac_address] accepts exactly the texts of the reading, with the
    bytes of the reading. *)
Lemma parse_accepted (s : string) :
  match accepted s with
  | Some a => parse_mac_address s = Val a
  | None => exists e, parse_mac_address s = Exc e
  end.
Proof.
  unfold parse_mac_address, accepted.
  pose proof (parse_from_first_bytes 6 s 0 (replicate 6 0)) as H.
  specialize (H ltac:(cbn; lia)).
  destruct (first_bytes 6 (groups s)) as [bs |]; [| exact H].
  rewrite H. cbn [take app]. f_equal.
  rewrite drop_ge by (cbn; lia). apply app_nil_r.
Qed.














Lemma parse_not_fuel (s : string) : parse_mac_address s <> Fuel.
Proof.
  pose proof (parse_accepted s) as H.
  destruct (accepted s); [congruence |]. destruct H as [e ->]. discriminate.
Qed.




End ParseExact.

(** ** The rows: which value goes to which column; what the callbacks keep *)

Section RowFacts.

Context {W Num : Type} `{Env : Environment W Num}.

Lemma csv_fields_plain (a : string) :
  count_char "," a = 0%nat -> csv_fields a = [a].
Proof.
  induction a as [| c a IH]; [reflexivity |].
  cbn [count_char csv_fields]. destruct (Ascii.eqb c ","); [discriminate |].
  intros H. rewrite IH by exact H. reflexivity.
Qed.

Lemma csv_fields_cons (a b : string) :
  count_char "," a = 0%nat ->
  csv_fields (a +:+ "," +:+ b) = a :: csv_fields b.
Proof.
  induction a as [| c a IH]; [reflexivity |].
  rewrite append_String. cbn [count_char csv_fields].
  destruct (Ascii.eqb c ","); [discriminate |].
  intros H. rewrite IH by exact H. reflexivity.
Qed.

Lemma emg_text_unfold (emg : list Z) (rest : string) :
  emg_text emg +:+ rest
  = to_string (nth 0 emg 0) +:+ "," +:+ to_string (nth 1 emg 0) +:+ "," +:+
    to_string (nth 2 emg 0) +:+ "," +:+ to_string (nth 3 emg 0) +:+ "," +:+
    to_string (nth 4 emg 0) +:+ "," +:+ to_string (nth 5 emg 0) +:+ "," +:+
    to_string (nth 6 emg 0) +:+ "," +:+ to_string (nth 7 emg 0) +:+ "," +:+
    rest.
Proof.
  unfold emg_text. cbn [seq fold_left].
  rewrite !append_assoc. reflexivity.
Qed.

(** The fields of a row are, in the order of the header, the timestamp, the
    eight EMG channels, the four orientation components, the three
    accelerometer and the three gyroscope components, each as printed. *)
Theorem row_fields_in_header_order (timestamp : Z) (f : SampleFrame Num) :
  plain_numbers ->
  csv_fields (csv_line timestamp f)
  = to_string timestamp
      :: map (fun j => to_string (nth j (emg_data f) 0)) (seq 0 8)
      ++ map print_num
           [q0 (ori_data f); q1 (ori_data f); q2 (ori_data f); q3 (ori_data f);
            v0 (acc_data f); v1 (acc_data f); v2 (acc_data f);
            v0 (gyr_data f); v1 (gyr_data f); v2 (gyr_data f)].
Proof.
  intros Hplain. unfold csv_line. rewrite emg_text_unfold.
  assert (Hz : forall z, count_char "," (to_string z) = 0%nat)
    by (intros z; apply count_char_to_string; left; reflexivity).
  assert (Hn : forall x, count_char "," (print_num x) = 0%nat)
    by (intros x; apply Hplain).
  rewrite !csv_fields_cons by (apply Hz || apply Hn).
  rewrite csv_fields_plain by apply Hn.
  reflexivity.
Qed.

Lemma emg_copy (data sample : list Z) :
  length data = 8%nat -> length sample = 8%nat ->
  fold_left (fun d i => <[i := nth i sample 0]> d) (seq 0 8) data = sample.
Proof.
  intros Hd Hs.
  do 9 (destruct data as [| ? data]; try discriminate Hd).
  do 9 (destruct sample as [| ? sample]; try discriminate Hs).
  reflexivity.
Qed.

Lemma deliver_length (f : SampleFrame Num) (d : delivery Num) :
  length (emg_data f) = 8%nat -> full_sample d ->
  length (emg_data (deliver f d)) = 8%nat.
Proof.
  intros Hf Hd. destruct d as [sample | ori acc gyr]; [| exact Hf].
  cbn [deliver emg_data]. rewrite emg_copy; assumption.
Qed.

(** After a poll, the frame holds the last EMG sample and the last IMU
    samples the poll delivered, and what it held before for a kind of
    sample the poll did not deliver: the EMG callback touches no IMU field
    and the IMU callback no EMG channel. *)
Theorem frame_holds_latest (ds : list (delivery Num)) :
  forall f : SampleFrame Num,
    length (emg_data f) = 8%nat ->
    Forall full_sample ds ->
    emg_data (fold_left deliver ds f) = default (emg_data f) (last_emg ds) /\
    (ori_data (fold_left deliver ds f), acc_data (fold_left deliver ds f),
     gyr_data (fold_left deliver ds f))
    = default (ori_data f, acc_data f, gyr_data f) (last_imu ds).
Proof.
  induction ds as [| d ds IH]; intros f Hf Hds; [split; reflexivity |].
  apply Forall_cons in Hds as [Hd Hds].
  cbn [fold_left last_emg last_imu].
  destruct (IH (deliver f d) (deliver_length f d Hf Hd) Hds) as [He Hi].
  rewrite He, Hi. clear He Hi IH.
  destruct (last_emg ds), (last_imu ds), d as [sample | ori acc gyr];
    cbn [from_option id deliver emg_data ori_data acc_data gyr_data full_sample]
      in *;
    try rewrite emg_copy by assumption; split; reflexivity.
Qed.

End RowFacts.

Lemma row_fields_in_header_order_witness :
  csv_fields (csv_line 1700000000010
                (mkFrame [11; 12; 13; 14; 15; 16; 17; 18] (mkVec4 16384 (-10) 0 10)
                         (mkVec3 10 0 2048) (mkVec3 0 (-10) 1)))
  = ["1700000000010"; "11"; "12"; "13"; "14"; "15"; "16"; "17"; "18";
     "16384"; "-10"; "0"; "10"; "10"; "0"; "2048"; "0"; "-10"; "1"]%string.
Proof.
  apply (row_fields_in_header_order (Env := Sim.env)). exact sim_plain_numbers.
Defined.

Lemma frame_holds_latest_witness :
  let f := mkFrame (replicate 8 0) (mkVec4 0 0 0 0) (mkVec3 0 0 0) (mkVec3 0 0 0) in
  let ds := [OnEmg [1; 2; 3; 4; 5; 6; 7; 8];
             OnImu (mkVec4 1 2 3 4) (mkVec3 5 6 7) (mkVec3 8 9 10);
             OnEmg [9; 9; 9; 9; 9; 9; 9; 9]] in
  emg_data (fold_left deliver ds f) = [9; 9; 9; 9; 9; 9; 9; 9] /\
  (ori_data (fold_left deliver ds f), acc_data (fold_left deliver ds f),
   gyr_data (fold_left deliver ds f))
  = (mkVec4 1 2 3 4, mkVec3 5 6 7, mkVec3 8 9 10).
Proof.
  apply (frame_holds_latest (Num := Z)); [reflexivity |].
  repeat constructor.
Defined.

(** ** The reconnection routine: how long it can sleep *)

Section ReconnectMore.

Context {W Num : Type} `{Env : Environment W Num}.

Import MyoLinux Shape.

Lemma sleep_total_app (l1 l2 : list event) :
  sleep_total (l1 ++ l2) = sleep_total l1 + sleep_total l2.
Proof.
  induction l1 as [| ev l1 IH]; [reflexivity |].
  destruct ev; cbn [app sleep_total]; rewrite IH; lia.
Qed.

Lemma failed_pass_sleep (p : list event) :
  failed_pass p -> 0 <= sleep_total p <= 1000.
Proof. intros []; cbn; lia. Qed.

Lemma run_from_sleep (n : Z) (tr : list event) (r : outcome unit) :
  run_from n tr r ->
  n <= MAX_RECONNECT_ATTEMPTS ->
  sleep_total tr <= 11000 * (MAX_RECONNECT_ATTEMPTS - n) /\
  (r = Exc exhausted -> 10000 * (MAX_RECONNECT_ATTEMPTS - n) <= sleep_total tr).
Proof.
  induction 1 as [n Hge | n Hlt | n p tr r Hlt Hp Hrun IH]; intros Hn.
  - cbn. split; [lia |]. intros _. lia.
  - change (sleep_total success_pass) with 0. split; [lia | discriminate].
  - destruct IH as [IH1 IH2]; [lia |].
    pose proof (failed_pass_sleep p Hp) as Hps.
    rewrite !sleep_total_app.
    change (sleep_total backoff) with 10000.
    split; [lia |]. intros Hr. specialize (IH2 Hr). lia.
Qed.

(** A call of [reconnect] sleeps at most 55 seconds in all (1 s before each
    [connect] of the disconnected branch and 10 s after each failed pass),
    and at least 50 seconds when it ends with the exhaustion error. *)
Theorem reconnect_sleep_bounded (address : list Z) (st : state W) :
  exists tr : list event,
    trace (snd (reconnect address st)) = trace st ++ tr /\
    sleep_total tr <= 55000 /\
    (fst (reconnect address st) = Exc exhausted -> 50000 <= sleep_total tr).
Proof.
  destruct (reconnect_shape address st) as (tr & Htr & Hrun).
  exists tr. split; [exact Htr |].
  destruct (run_from_sleep 0 tr _ Hrun) as [H1 H2];
    [unfold MAX_RECONNECT_ATTEMPTS; lia |].
  unfold MAX_RECONNECT_ATTEMPTS in *. split; [lia |].
  intros Hr. specialize (H2 Hr). lia.
Qed.

End ReconnectMore.

(** ** The connection loop of the earlier program and the stop flag *)

Section LegacyMore.

Context {W Num : Type} `{Env : Environment W Num}.

Import Legacy LegacyShape.

Ltac stop_here :=
  match goal with
  | |- ends_at_stop _ =>
      let H := fresh in
      intros ? H; first [discriminate H | injection H as <-; reflexivity]
  end.

Lemma legacy_run_stop (n : Z) (tr : list event) (r : outcome unit) :
  run_from n tr r -> each_suffix ends_at_stop tr.
Proof.
  induction 1 as [n e | n | n Hge | n Hlt | n Hlt | n p tr r Hlt Hp Hrun IH];
    try (cbn [each_suffix app entered];
         repeat match goal with |- _ /\ _ => split end; stop_here).
  destruct Hp; unfold entered, backoff, error_log;
    cbn [each_suffix app];
    repeat match goal with |- _ /\ _ => split end;
    try exact IH; stop_here.
Qed.

(** Walks along a concrete prefix of a trace in search of a [connect]. *)
Ltac walk Heq pre :=
  destruct pre as [| ? pre];
  [ first [ discriminate Heq
          | injection Heq as <- <-;
            exists [EConnected (Ok false)]; reflexivity ]
  | injection Heq as <- Heq ].

Lemma legacy_run_connect (n : Z) (tr : list event) (r : outcome unit) :
  run_from n tr r ->
  forall (pre post : list event) (rc : reply unit),
    tr = pre ++ EConnect rc :: post ->
    exists pre' : list event,
      pre = pre' ++ [EStop false; ELog "Attempting to connect to Myo..."].
Proof.
  induction 1 as [n e | n | n Hge | n Hlt | n Hlt | n p tr r Hlt Hp Hrun IH];
    intros pre post rc Heq.
  - walk Heq pre. destruct pre; discriminate Heq.
  - walk Heq pre. destruct pre; discriminate Heq.
  - walk Heq pre. destruct pre; discriminate Heq.
  - do 2 walk Heq pre. destruct pre; discriminate Heq.
  - unfold entered in Heq. cbn [app] in Heq.
    do 6 walk Heq pre. destruct pre; discriminate Heq.
  - destruct Hp; unfold entered, backoff, error_log in Heq; cbn [app] in Heq.
    + do 7 walk Heq pre.
      destruct (IH _ _ _ Heq) as [pre' ->].
      eexists. rewrite !app_comm_cons. reflexivity.
    + do 8 walk Heq pre.
      destruct (IH _ _ _ Heq) as [pre' ->].
      eexists. rewrite !app_comm_cons. reflexivity.
    + do 7 walk Heq pre.
      destruct (IH _ _ _ Heq) as [pre' ->].
      eexists. rewrite !app_comm_cons. reflexivity.
Qed.

(** The connection loop of the earlier program reads the stop flag before
    every pass: a read that finds it set ends the loop, so that nothing
    follows it, and every [connect] comes right after a read that found it
    unset. *)
Theorem legacy_loop_honours_stop (st : state W) :
  exists tr : list event,
    trace (snd (connect_loop 5 0 st)) = trace st ++ tr /\
    (forall pre post : list event, tr = pre ++ EStop true :: post -> post = []) /\
    (forall (pre post : list event) (rc : reply unit),
        tr = pre ++ EConnect rc :: post ->
        exists pre' : list event,
          pre = pre' ++ [EStop false; ELog "Attempting to connect to Myo..."]).
Proof.
  destruct (connect_loop 5 0 st) as [r st'] eqn:Hrun.
  destruct (connect_loop_shape 5 0 st st' r) as (tr & Htr & Hshape);
    [vm_compute; lia | exact Hrun |].
  exists tr. split; [exact Htr |]. split.
  - intros pre post Heq.
    exact (each_suffix_spec _ pre tr _ (legacy_run_stop _ _ _ Hshape) Heq
                            post eq_refl).
  - exact (legacy_run_connect _ _ _ Hshape).
Qed.

End LegacyMore.

(** ** The collection loop: its guard and its watchdog *)

Section AcquisitionFacts.

Context {W Num : Type} `{Env : Environment W Num}.

Import AcqShape.

Lemma quot_below (d : Z) :
  d < 61 * Watchdog.ticks_per_second ->
  Watchdog.duration_cast_seconds d <= 60.
Proof.
  intros Hd. unfold Watchdog.duration_cast_seconds.
  assert (Hp : 0 < Watchdog.ticks_per_second) by reflexivity.
  destruct (Z.le_gt_cases 0 d) as [Hnn | Hneg].
  - rewrite Z.quot_div_nonneg by lia.
    assert (d / Watchdog.ticks_per_second < 61); [| lia].
    apply Z.div_lt_upper_bound; lia.
  - pose proof (Z.quot_opp_l d Watchdog.ticks_per_second) as Ho.
    assert (0 <= Z.quot (- d) Watchdog.ticks_per_second)
      by (apply Z.quot_pos; lia).
    lia.
Qed.

Lemma not_timed_out (wd : Watchdog.ConnectionWatchdog) (t1 t3 : Z) :
  60 <= Watchdog.timeout wd ->
  t3 - t1 < 61 * Watchdog.ticks_per_second ->
  Watchdog.is_timeout (Watchdog.update wd t1) t3 = false.
Proof.
  intros HT Hd. unfold Watchdog.is_timeout.
  cbn [Watchdog.update Watchdog.last_activity Watchdog.timeout].
  pose proof (quot_below _ Hd). rewrite Z.gtb_ltb. apply Z.ltb_ge. lia.
Qed.

(** The events of the loop and whether the watchdog ended it. *)
Lemma acquisition_shape (fuel : nat) :
  forall (filename : string) (frame : SampleFrame Num) (last_write_time : Z)
         (st st' : state W) (r : outcome unit),
    acquisition fuel filename frame last_write_time st = (r, st') ->
    exists (tr : list event) (fired : bool),
      trace st' = trace st ++ tr /\
      run tr r fired /\
      (quick_clock -> 60 <= Watchdog.timeout (watchdog st) -> fired = false).
Proof.
  induction fuel as [| fuel IH];
    intros filename frame last_write_time st st' r Hrun;
    cbn [acquisition] in Hrun; unfold bind at 1 in Hrun;
    unfold connected at 1, call in Hrun;
    destruct (client_connected (world st)) as [[[] | e] w1];
    try (injection Hrun as <- <-; eexists _, false;
         split; [reflexivity |]; split; [constructor | reflexivity]);
    unfold bind at 1 in Hrun; unfold read_stop at 1 in Hrun;
    cbn [world emit set_world] in Hrun;
    destruct (stop w1);
    try (injection Hrun as <- <-; eexists _, false;
         split; [cbn [trace emit set_world]; rewrite <- app_assoc; reflexivity |];
         split; [constructor | reflexivity]).
  unfold bind at 1 in Hrun. unfold listen at 1, call in Hrun.
  cbn [world emit set_world] in Hrun.
  destruct (client_listen w1) as [[ds | e] w2].
  - unfold bind at 1 in Hrun. unfold watchdog_update at 1 in Hrun.
    cbn [world emit set_world watchdog trace files] in Hrun.
    pose proof (fun Hq : quick_clock => Hq w2) as Hquick.
    destruct (steady_now w2) as [t1 w3].
    unfold bind at 1 in Hrun. unfold read at 1 in Hrun.
    cbn [world set_world] in Hrun.
    destruct (steady_now w3) as [t2 w4].
    unfold bind at 1 in Hrun.
    destruct (duration_cast_milliseconds (t2 - last_write_time) >=? 10).
    + unfold bind at 1 in Hrun. unfold read at 1 in Hrun.
      cbn [world set_world] in Hrun.
      destruct (system_now_ms w4) as [ts w5].
      cbn [snd] in Hquick.
      unfold bind at 1 in Hrun. unfold write at 1 in Hrun.
      unfold ret at 1 in Hrun.
      cbn [world set_world watchdog trace files] in Hrun.
      unfold bind at 1 in Hrun. unfold watchdog_is_timeout at 1 in Hrun.
      cbn [world set_world watchdog trace files] in Hrun.
      destruct (steady_now w5) as [t3 w6]. cbn [fst] in Hquick.
      destruct (Watchdog.is_timeout (Watchdog.update (watchdog st) t1) t3)
        eqn:Hfire.
      * injection Hrun as <- <-. eexists _, true.
        split; [cbn [trace emit set_world]; rewrite <- !app_assoc; reflexivity |].
        split; [apply run_watchdog |].
        intros Hq HT. destruct (Hquick Hq) as [_ Hlate].
        rewrite (not_timed_out _ _ _ HT Hlate) in Hfire. discriminate Hfire.
      * unfold bind at 1, sleep_for at 1 in Hrun.
        apply IH in Hrun as (tr & fired & Htr & Hshape & Hquiet).
        exists (guard ++ [EListen true; ESleep 1] ++ tr), fired.
        split; [rewrite Htr; cbn [trace emit set_world];
                rewrite <- !app_assoc; reflexivity |].
        split; [apply run_pass; exact Hshape |].
        intros Hq HT. apply Hquiet; [exact Hq | exact HT].
    + unfold ret at 1 in Hrun.
      unfold bind at 1 in Hrun. unfold watchdog_is_timeout at 1 in Hrun.
      cbn [world set_world watchdog trace files] in Hrun.
      destruct (steady_now w4) as [t3 w5]. cbn [fst] in Hquick.
      destruct (Watchdog.is_timeout (Watchdog.update (watchdog st) t1) t3)
        eqn:Hfire.
      * injection Hrun as <- <-. eexists _, true.
        split; [cbn [trace emit set_world]; rewrite <- !app_assoc; reflexivity |].
        split; [apply run_watchdog |].
        intros Hq HT. destruct (Hquick Hq) as [Hsoon _].
        rewrite (not_timed_out _ _ _ HT Hsoon) in Hfire. discriminate Hfire.
      * unfold bind at 1, sleep_for at 1 in Hrun.
        apply IH in Hrun as (tr & fired & Htr & Hshape & Hquiet).
        exists (guard ++ [EListen true; ESleep 1] ++ tr), fired.
        split; [rewrite Htr; cbn [trace emit set_world];
                rewrite <- !app_assoc; reflexivity |].
        split; [apply run_pass; exact Hshape |].
        intros Hq HT. apply Hquiet; [exact Hq | exact HT].
  - injection Hrun as <- <-. eexists _, false.
    split; [cbn [trace emit set_world]; rewrite <- !app_assoc; reflexivity |].
    split; [apply run_listen_throws | reflexivity].
Qed.

Ltac step_to_listen Heq pre :=
  destruct pre as [| ? pre];
  [ first [ discriminate Heq
          | injection Heq as <- <-; exists []; reflexivity ]
  | injection Heq as <- Heq ].

Lemma run_listen_guarded (tr : list event) (r : outcome unit) (fired : bool) :
  run tr r fired ->
  forall (pre post : list event) (ok : bool),
    tr = pre ++ EListen ok :: post ->
    exists pre' : list event, pre = pre' ++ guard.
Proof.
  induction 1 as [e | | | | e | | tr r fired Hrun IH]; intros pre post ok Heq;
    unfold guard in *; cbn [app] in Heq.
  - do 1 step_to_listen Heq pre. destruct pre; discriminate Heq.
  - do 1 step_to_listen Heq pre. destruct pre; discriminate Heq.
  - do 2 step_to_listen Heq pre. destruct pre; discriminate Heq.
  - do 2 step_to_listen Heq pre. destruct pre; discriminate Heq.
  - do 3 step_to_listen Heq pre. destruct pre; discriminate Heq.
  - do 3 step_to_listen Heq pre. destruct pre; discriminate Heq.
  - do 4 step_to_listen Heq pre.
    destruct (IH _ _ _ Heq) as [pre' ->].
    eexists. rewrite !app_comm_cons. reflexivity.
Qed.

Lemma run_stop_last (tr : list event) (r : outcome unit) (fired : bool) :
  run tr r fired -> each_suffix ends_at_stop tr.
Proof.
  induction 1 as [e | | | | e | | tr r fired Hrun IH];
    unfold guard; cbn [each_suffix app];
    repeat match goal with |- _ /\ _ => split end;
    try exact IH;
    (let H := fresh in
     intros ? H; first [discriminate H | injection H as <-; reflexivity]).
Qed.

Lemma run_exception (tr : list event) (r : outcome unit) (fired : bool) :
  run tr r fired ->
  forall e : exception,
    r = Exc e -> fired = false ->
    last tr = Some (EConnected (Throws e)) \/ last tr = Some (EListen false).
Proof.
  induction 1 as [e0 | | | | e0 | | tr r fired Hrun IH]; intros e Hr Hf;
    try discriminate Hr; try discriminate Hf.
  - injection Hr as <-. left. reflexivity.
  - right. reflexivity.
  - assert (Hne : tr <> []) by (destruct Hrun; discriminate).
    destruct (IH e Hr Hf) as [Hl | Hl]; [left | right];
      (destruct tr as [| ev tr]; [congruence |]);
      unfold guard; cbn [app];
      rewrite !last_cons_cons; exact Hl.
Qed.

(** In the collection loop, every [listen()] comes right after a
    [connected()] that answered true and a read of the stop flag that found
    it unset; and a read that finds the flag set is the last thing the loop
    does. *)
Theorem acquisition_polls_guarded (fuel : nat) (filename : string)
        (frame : SampleFrame Num) (last_write_time : Z) (st : state W) :
  exists tr : list event,
    trace (snd (acquisition fuel filename frame last_write_time st))
    = trace st ++ tr /\
    (forall (pre post : list event) (ok : bool),
        tr = pre ++ EListen ok :: post ->
        exists pre' : list event,
          pre = pre' ++ [EConnected (Ok true); EStop false]) /\
    (forall pre post : list event, tr = pre ++ EStop true :: post -> post = []).
Proof.
  destruct (acquisition fuel filename frame last_write_time st)
    as [r st'] eqn:Hrun.
  destruct (acquisition_shape _ _ _ _ _ _ _ Hrun)
    as (tr & fired & Htr & Hshape & _).
  exists tr. split; [exact Htr |]. split.
  - exact (run_listen_guarded _ _ _ Hshape).
  - intros pre post Heq.
    exact (each_suffix_spec _ pre tr _ (run_stop_last _ _ _ Hshape) Heq
                            post eq_refl).
Qed.

(** The watchdog is updated in every pass right before it is asked, so it
    measures one pass, not the silence of the device: when a pass never takes
    61 seconds, the watchdog never ends the loop, and an exception that leaves
    the loop is one that [connected()] or [listen()] threw. *)
Theorem watchdog_quiet (fuel : nat) (filename : string)
        (frame : SampleFrame Num) (last_write_time : Z) (st st' : state W)
        (e : exception) :
  quick_clock ->
  60 <= Watchdog.timeout (watchdog st) ->
  acquisition fuel filename frame last_write_time st = (Exc e, st') ->
  last (trace st') = Some (EConnected (Throws e)) \/
  last (trace st') = Some (EListen false).
Proof.
  intros Hq HT Hrun.
  destruct (acquisition_shape _ _ _ _ _ _ _ Hrun)
    as (tr & fired & Htr & Hshape & Hquiet).
  specialize (Hquiet Hq HT). subst fired.
  assert (Hne : tr <> []) by (destruct Hshape; discriminate).
  rewrite Htr.
  destruct (run_exception _ _ _ Hshape e eq_refl eq_refl) as [Hl | Hl];
    [left | right]; rewrite last_app, Hl; reflexivity.
Qed.

End AcquisitionFacts.

Lemma sim_quick_clock : quick_clock (Env := Sim.env).
Proof. intros w. cbn. unfold Watchdog.ticks_per_second. lia. Qed.

Lemma watchdog_quiet_witness :
  let frame := mkFrame (replicate 8 0) (mkVec4 0 0 0 0) (mkVec3 0 0 0) (mkVec3 0 0 0) in
  let run := acquisition 5 "out/a.csv" frame 0 (Sim.start Scenario2.failing_link) in
  last (trace (snd run)) = Some (EConnected (Throws Sim.link_down)) \/
  last (trace (snd run)) = Some (EListen false).
Proof.
  intros frame run.
  apply (watchdog_quiet (Env := Sim.env) 5 "out/a.csv" frame 0
           (Sim.start Scenario2.failing_link) (snd run) Sim.link_down).
  - exact sim_quick_clock.
  - vm_compute. discriminate.
  - vm_compute. reflexivity.
Defined.

(** ** The supervisors: which exceptions and which statuses leave them *)

Section SupervisorMore.

Context {W Num : Type} `{Env : Environment W Num}.

Lemma returns_bind {A B : Type} (P : B -> Prop) (m : M W A) (k : A -> M W B) :
  (forall a, returns_only P (k a)) -> returns_only P (bind m k).
Proof.
  intros Hk st b. unfold bind.
  destruct (m st) as [[a | e |] st1] eqn:Hm; cbn [fst];
    [apply Hk | discriminate | discriminate].
Qed.

Lemma returns_ret {A : Type} (P : A -> Prop) (a : A) :
  P a -> returns_only (W := W) P (ret a).
Proof. intros Ha st b [= <-]. exact Ha. Qed.

Lemma collect_returns (fuel : nat) (filename : string) :
  returns_only goes_on_or_fails (collect fuel filename).
Proof.
  unfold collect. repeat (apply returns_bind; intros ?).
  apply returns_ret. left. reflexivity.
Qed.

Lemma episode_returns (fuel : nat) (filename open_error : string) :
  returns_only goes_on_or_fails (episode fuel filename open_error).
Proof.
  unfold episode. apply returns_bind. intros [].
  - apply returns_bind. intros _. apply collect_returns.
  - apply returns_bind. intros _. apply returns_ret. right. reflexivity.
Qed.

Lemma supervise_try_returns (fuel : nat) (out mac : string) (address : list Z) :
  returns_only goes_on_or_fails (MyoLinux.supervise_try fuel out mac address).
Proof.
  unfold MyoLinux.supervise_try.
  apply returns_bind. intros c. apply returns_bind. intros _.
  apply returns_bind. intros [].
  - do 3 (apply returns_bind; intros ?). apply episode_returns.
  - do 2 (apply returns_bind; intros ?). apply returns_ret. left. reflexivity.
Qed.

Lemma shutdown_status (st : state W) : fst (MyoLinux.shutdown st) = Val 0.
Proof.
  unfold MyoLinux.shutdown, bind, log_message, try_catch, disconnect, call, ret.
  cbn [world emit set_world].
  destruct (client_disconnect (world st)) as [[[] | e] w]; reflexivity.
Qed.

(** Once the current program is in its supervisor loop, no exception leaves
    [main]: whatever the device does, the loop ends with status 0 (after the
    stop flag was read as set) or 1 (the CSV file could not be opened), or
    goes on. *)
Theorem supervisor_contains_exceptions (fuel : nat) (out mac : string)
        (address : list Z) :
  forall st : state W,
    match fst (MyoLinux.supervisor fuel out mac address st) with
    | Val code => code = 0 \/ code = 1
    | Exc _ => False
    | Fuel => True
    end.
Proof.
  induction fuel as [| fuel IH]; intros st; cbn [MyoLinux.supervisor];
    unfold bind at 1; unfold read_stop at 1; destruct (stop (world st));
    try (rewrite shutdown_status; left; reflexivity);
    try exact I.
  unfold bind at 1. unfold try_catch at 1.
  pose proof (supervise_try_returns fuel out mac address (emit (EStop false) st))
    as Hret.
  destruct (MyoLinux.supervise_try fuel out mac address (emit (EStop false) st))
    as [[r | e |] st1]; cbn [fst] in Hret.
  - destruct (Hret r eq_refl) as [-> | ->]; [apply IH |].
    cbn. right. reflexivity.
  - pose proof (recover_returns address e st1) as Hrec.
    destruct (MyoLinux.recover address e st1) as [r2 st2].
    cbn [fst] in Hrec. subst r2. apply IH.
  - exact I.
Qed.

(** In the earlier program an exception can leave the supervisor loop, and
    then it is one thrown by [disconnect()], in the [catch] block or after
    the loop: the last thing the program did is that call. *)
Theorem legacy_escaping_exception (fuel : nat) (out : string) :
  forall (st st' : state W) (e : exception),
    Legacy.supervisor fuel out st = (Exc e, st') ->
    last (trace st') = Some (EDisconnect (Throws e)).
Proof.
  assert (Hshut : forall (s s' : state W) (e : exception),
             Legacy.shutdown s = (Exc e, s') ->
             last (trace s') = Some (EDisconnect (Throws e))).
  { intros s s' e. unfold Legacy.shutdown, bind, disconnect, call, log_message, ret.
    destruct (client_disconnect (world s)) as [[[] | e0] w]; intros [= <- <-].
    cbn [trace emit set_world]. apply last_snoc. }
  induction fuel as [| fuel IH]; intros st st' e; cbn [Legacy.supervisor];
    unfold bind at 1; unfold read_stop at 1; destruct (stop (world st));
    try (apply Hshut); try discriminate.
  unfold bind at 1. unfold try_catch at 1.
  destruct (Legacy.supervise_try fuel out (emit (EStop false) st))
    as [[r | e0 |] st1].
  - destruct r; try apply IH. discriminate.
  - unfold Legacy.recover at 1. unfold bind, log_message, sleep_for, disconnect,
      call, ret.
    cbn [world emit set_world].
    destruct (client_disconnect _) as [[[] | e1] w].
    + apply IH.
    + intros [= <- <-]. cbn [trace emit set_world]. apply last_snoc.
  - discriminate.
Qed.

End SupervisorMore.

Lemma legacy_escaping_exception_witness :
  last (trace (snd (Legacy.supervisor 0 "out"
                      (Sim.start Scenario2.stopped_bad_disconnect))))
  = Some (EDisconnect (Throws Sim.link_down)).
Proof.
  apply (legacy_escaping_exception 0 "out"
           (Sim.start Scenario2.stopped_bad_disconnect)).
  vm_compute. reflexivity.
Defined.

(** ** The files: nothing is ever removed or rewritten *)

Section FilesGrow.

Context {W Num : Type} `{Env : Environment W Num}.

Lemma grows_refl (fs : gmap string string) : grows fs fs.
Proof. intros f c Hc. exists EmptyString. rewrite append_empty_r. exact Hc. Qed.

Lemma grows_trans (fs1 fs2 fs3 : gmap string string) :
  grows fs1 fs2 -> grows fs2 fs3 -> grows fs1 fs3.
Proof.
  intros H12 H23 f c Hc.
  destruct (H12 f c Hc) as (c1 & Hc1). destruct (H23 f _ Hc1) as (c2 & Hc2).
  exists (c1 +:+ c2). rewrite <- append_assoc. exact Hc2.
Qed.

Lemma grows_append_text (f t : string) (fs : gmap string string) :
  grows fs (append_text f t fs).
Proof.
  intros g c Hc. unfold append_text.
  destruct (decide (f = g)) as [-> | Hne].
  - exists t. rewrite lookup_insert_eq, Hc. reflexivity.
  - exists EmptyString. rewrite lookup_insert_ne by exact Hne.
    rewrite append_empty_r. exact Hc.
Qed.

Lemma extends_keep {A : Type} (m : M W A) :
  (forall st, files (snd (m st)) = files st) -> extends m.
Proof. intros Hkeep st. rewrite Hkeep. apply grows_refl. Qed.

Lemma extends_bind {A B : Type} (m : M W A) (k : A -> M W B) :
  extends m -> (forall a, extends (k a)) -> extends (bind m k).
Proof.
  intros Hm Hk st. unfold bind. specialize (Hm st).
  destruct (m st) as [[a | e |] st1]; cbn [snd] in *; try exact Hm.
  exact (grows_trans _ _ _ Hm (Hk a st1)).
Qed.

Lemma extends_try_catch {A : Type} (m : M W A) (h : exception -> M W A) :
  extends m -> (forall e, extends (h e)) -> extends (try_catch m h).
Proof.
  intros Hm Hh st. unfold try_catch. specialize (Hm st).
  destruct (m st) as [[a | e |] st1]; cbn [snd] in *; try exact Hm.
  exact (grows_trans _ _ _ Hm (Hh e st1)).
Qed.

Lemma extends_write (f t : string) : extends (W := W) (write f t).
Proof. intros st. apply grows_append_text. Qed.

Lemma extends_open_append (f : string) : extends (open_append f).
Proof.
  intros st. unfold open_append.
  destruct (ofstream_is_open f (world st)) as [[] w]; cbn [snd write files].
  - apply grows_append_text.
  - apply grows_refl.
Qed.

Lemma watchdog_construct_keeps (timeout_s : Z) (st : state W) :
  files (snd (watchdog_construct timeout_s st)) = files st.
Proof.
  unfold watchdog_construct. destruct (steady_now (world st)) as [a w].
  reflexivity.
Qed.

(** Follows the structure of a computation down to its primitives. *)
Ltac ext :=
  repeat match goal with
         | |- extends (bind _ _) => apply extends_bind; [| intros ?]
         | |- extends (try_catch _ _) => apply extends_try_catch; [| intros ?]
         | |- extends (if ?b then _ else _) => destruct b
         | |- extends (match ?x with _ => _ end) => destruct x
         | |- extends (write _ _) => apply extends_write
         | |- extends (open_append _) => apply extends_open_append
         | |- extends (call _ _) => apply extends_keep; intros ?; apply call_keeps
         | |- extends (read _) => apply extends_keep; intros ?; apply read_keeps
         | |- extends watchdog_update =>
             apply extends_keep; intros ?; apply watchdog_update_keeps
         | |- extends watchdog_is_timeout =>
             apply extends_keep; intros ?; apply watchdog_is_timeout_keeps
         | |- extends (watchdog_construct _) =>
             apply extends_keep; intros ?; apply watchdog_construct_keeps
         | |- extends (ret _) => apply extends_keep; intros ?; reflexivity
         | |- extends (throw _) => apply extends_keep; intros ?; reflexivity
         | |- extends out_of_fuel => apply extends_keep; intros ?; reflexivity
         | |- extends (log_message _) => apply extends_keep; intros ?; reflexivity
         | |- extends (sleep_for _) => apply extends_keep; intros ?; reflexivity
         | |- extends read_stop => apply extends_keep; intros ?; reflexivity
         | |- extends (close _) => apply extends_keep; intros ?; reflexivity
         | |- extends (fun s => (Val _, s)) =>
             apply extends_keep; intros ?; reflexivity
         end.

Ltac open_calls :=
  unfold connected, connect, disconnect, setSleepMode, setMode, onEmg, onImu,
    listen.

Lemma extends_acquisition (fuel : nat) :
  forall (filename : string) (frame : SampleFrame Num) (last_write_time : Z),
    extends (acquisition fuel filename frame last_write_time).
Proof.
  induction fuel as [| fuel IH]; intros filename frame last_write_time;
    cbn [acquisition]; open_calls; ext. apply IH.
Qed.

Lemma extends_episode (fuel : nat) (filename open_error : string) :
  extends (episode fuel filename open_error).
Proof.
  unfold episode, collect. open_calls. ext; try apply extends_acquisition; ext.
Qed.

Lemma extends_reconnect_loop (fuel : nat) :
  forall (address : list Z) (n : Z),
    extends (MyoLinux.reconnect_loop fuel address n).
Proof.
  induction fuel as [| fuel IH]; intros address n;
    cbn [MyoLinux.reconnect_loop];
    unfold MyoLinux.reconnect_pass, MyoLinux.reconnect_try; open_calls; ext;
    apply IH.
Qed.

Lemma extends_supervisor (fuel : nat) :
  forall (out mac : string) (address : list Z),
    extends (MyoLinux.supervisor fuel out mac address).
Proof.
  induction fuel as [| fuel IH]; intros out mac address;
    cbn [MyoLinux.supervisor];
    unfold MyoLinux.shutdown, MyoLinux.supervise_try, MyoLinux.recover,
      MyoLinux.announce, MyoLinux.reconnect, MyoLinux.last5;
    open_calls; ext;
    try apply extends_episode; try apply extends_reconnect_loop; ext;
    try apply IH.
Qed.

Lemma extends_connect_loop (fuel : nat) :
  forall n : Z, extends (Legacy.connect_loop fuel n).
Proof.
  induction fuel as [| fuel IH]; intros n; cbn [Legacy.connect_loop];
    unfold Legacy.connect_pass, Legacy.connect_try; open_calls; ext;
    apply IH.
Qed.

Lemma extends_legacy_supervisor (fuel : nat) :
  forall out : string, extends (Legacy.supervisor fuel out).
Proof.
  induction fuel as [| fuel IH]; intros out; cbn [Legacy.supervisor];
    unfold Legacy.shutdown, Legacy.supervise_try, Legacy.recover;
    open_calls; ext;
    try apply extends_episode; try apply extends_connect_loop; ext;
    try apply IH.
Qed.

(** Whatever the device does and however long they run, the two programs
    never remove a file and never change what a file already holds: every
    file that existed before [main] still exists after it, with its earlier
    content at the front. *)
Theorem files_only_grow (fuel : nat) (argv : list string) (st : state W)
        (f c : string) :
  files st !! f = Some c ->
  (exists c', files (snd (MyoLinux.main fuel argv st)) !! f = Some (c +:+ c')) /\
  (exists c', files (snd (Legacy.main fuel argv st)) !! f = Some (c +:+ c')).
Proof.
  intros Hc. split.
  - assert (Hext : extends (MyoLinux.main fuel argv)).
    { unfold MyoLinux.main. ext; apply extends_supervisor. }
    exact (Hext st f c Hc).
  - assert (Hext : extends (Legacy.main fuel argv)).
    { unfold Legacy.main. ext; apply extends_legacy_supervisor. }
    exact (Hext st f c Hc).
Qed.

End FilesGrow.

Lemma files_only_grow_witness :
  let name := ("out/myo_data_88:af_20231114_221320.csv")%string in
  let st := mkState Scenario.flapping [] {[ name := "kept"%string ]}
                    (Watchdog.make 60 0) in
  (exists c', files (snd (MyoLinux.main 10 Scenario.argv st)) !! name
              = Some ("kept" +:+ c')) /\
  (exists c', files (snd (Legacy.main 10 Scenario.argv st)) !! name
              = Some ("kept" +:+ c')).
Proof.
  intros name st.
  apply (files_only_grow (Env := Sim.env) 10 Scenario.argv st name "kept").
  reflexivity.
Defined.

Lemma stop_observed_status_zero_witness :
  exists (r : reply unit) (st' : state Sim.world),
    MyoLinux.supervisor 3 "out" "c8:2f:84:e5:88:af" Scenario.address
                        (Sim.start Scenario2.stopped_bad_disconnect)
    = (Val 0, st') /\
    trace st'
    = [] ++ [EStop true; ELog "Disconnecting..."; EDisconnect r] ++
      match r with
      | Ok _ => []
      | Throws _ => [ELog "Program ended abnormally."]
      end ++ [ELog "Program ended normally."].
Proof.
  apply (stop_observed_status_zero 3 "out" "c8:2f:84:e5:88:af" Scenario.address
           (Sim.start Scenario2.stopped_bad_disconnect)).
  reflexivity.
Defined.

(** ** The current program while the device is out of reach *)

Section NeverGivesUp.

Context {W Num : Type} `{Env : Environment W Num}.

Hypothesis no_signal : forall w : W, stop w = false.
Hypothesis no_link : forall w : W, fst (client_connected w) <> Ok true.

Lemma supervise_try_goes_on (fuel : nat) (out mac : string) (address : list Z)
      (st : state W) (r : flow) :
  fst (MyoLinux.supervise_try fuel out mac address st) = Val r -> r = Next.
Proof.
  unfold MyoLinux.supervise_try. unfold bind at 1.
  destruct (connected st) as [[c | e |] st1]; try discriminate.
  unfold bind at 1.
  destruct ((if negb c
             then bind (log_message "Attempting to connect to Myo...")
                       (fun _ => connect (Some (address, MyoLinux.connection_timeout)))
             else ret tt) st1) as [[[] | e |] st2]; try discriminate.
  unfold bind at 1. unfold connected at 1, call.
  pose proof (no_link (world st2)) as Hno.
  destruct (client_connected (world st2)) as [[[] | e] w]; cbn [fst] in Hno;
    try congruence; try discriminate.
  cbn [negb]. unfold bind, log_message, sleep_for, ret. cbn [fst].
  intros [= <-]. reflexivity.
Qed.

(** While no signal arrives and the client never reports a connection, the
    current program never returns: its supervisor loop has no bound on the
    number of passes (the 5-attempt bound is that of one call of [reconnect]
    only), so every budget of passes is used up. *)
Theorem supervisor_never_gives_up (fuel : nat) (out mac : string)
        (address : list Z) :
  forall st : state W,
    fst (MyoLinux.supervisor fuel out mac address st) = Fuel.
Proof.
  induction fuel as [| fuel IH]; intros st; cbn [MyoLinux.supervisor];
    unfold bind at 1; unfold read_stop at 1; rewrite no_signal;
    [reflexivity |].
  unfold bind at 1. unfold try_catch at 1.
  pose proof (supervise_try_goes_on fuel out mac address (emit (EStop false) st))
    as Hgo.
  destruct (MyoLinux.supervise_try fuel out mac address (emit (EStop false) st))
    as [[r | e |] st1]; cbn [fst] in Hgo.
  - rewrite (Hgo r eq_refl). apply IH.
  - pose proof (recover_returns address e st1) as Hrec.
    destruct (MyoLinux.recover address e st1) as [r2 st2].
    cbn [fst] in Hrec. subst r2. apply IH.
  - reflexivity.
Qed.

End NeverGivesUp.

Lemma supervisor_never_gives_up_witness :
  fst (MyoLinux.supervisor 4 "out" "c8:2f:84:e5:88:af" Scenario.address Dead.start)
  = Fuel.
Proof.
  apply (supervisor_never_gives_up (Env := Dead.env)).
  - intros w. reflexivity.
  - intros w. discriminate.
Defined.

(** ** The sensor firmware: the measurement interval *)

Section FirmwareFacts.

Import SEN55.

(** [loop()] measures exactly when at least one second has passed since the
    last measurement, also when [millis()] has wrapped around in between
    (as long as less than [2^32] ms have passed); and it then restarts the
    interval whether or not the reading succeeded, so a failed reading is
    not repeated before another second. *)
Theorem measurement_interval_survives_rollover (t0 t1 read_error : Z) :
  0 <= t0 <= t1 ->
  t1 - t0 < ULONG ->
  loop (millis t1) read_error (millis t0)
  = if MEASUREMENT_INTERVAL <=? t1 - t0
    then (millis t1, if read_error =? 0 then Advertised else ReadFailed)
    else (millis t0, Idle).
Proof.
  intros Hle Hlt. unfold loop, millis, wrap.
  assert (Hw : (t1 mod ULONG - t0 mod ULONG) mod ULONG = t1 - t0).
  { rewrite <- Zminus_mod. apply Z.mod_small. lia. }
  rewrite Hw. reflexivity.
Qed.

Lemma measurement_interval_survives_rollover_witness :
  loop (millis 4294967796) 0 (millis 4294966796)
  = if MEASUREMENT_INTERVAL <=? 4294967796 - 4294966796
    then (millis 4294967796, if 0 =? 0 then Advertised else ReadFailed)
    else (millis 4294966796, Idle).
Proof.
  apply (measurement_interval_survives_rollover 4294966796 4294967796 0).
  - lia.
  - unfold ULONG. lia.
Defined.

End FirmwareFacts.
